(** * Gandiva pattern holders: [cpp/src/gandiva/like_holder.cc]

    A shallow embedding of [RegexpMatchesHolder] and [SQLLikeHolder]:
    argument validation, pattern extraction, holder construction and the
    [TryOptimize] rewriting of a pattern-matching call into [starts_with],
    [ends_with] or [is_substr].

    The file has three layers:
    - [RE2]: the part of the matching engine that [TryOptimize] relies on,
      a backtracking matcher with submatches and its declarative semantics;
    - the expression-tree data ([Node], [FunctionNode], [LiteralHolder]),
      [Status]/[Result] and the [outcome] monad for C++ calls that may
      raise ([at], [get<std::string>], a null [shared_ptr]);
    - the functions of [like_holder.cc] and the properties proved of them. *)

From Stdlib Require Import List String Ascii Bool Arith Lia.
Import ListNotations.

Local Open Scope list_scope.

(* ================================================================= *)
(** ** The matching engine *)

Module RE2.

(** The engine works on the bytes of a [std::string]. *)
Definition text := list ascii.

(** Regular expressions, as far as the three recognizers use them.
    [Group i r] is the [i]-th parenthesised group, numbered by its
    opening parenthesis from 1. *)
Inductive regexp : Type :=
| Lit (a : ascii)
| Class (p : ascii -> bool)
| Cat (r1 r2 : regexp)
| Alt (r1 r2 : regexp)
| Star (r : regexp)
| Plus (r : regexp)
| Quest (r : regexp)
| Group (i : nat) (r : regexp).

(** Submatches recorded so far, latest first. *)
Definition submatches := list (nat * text).

Definition in_range (lo hi : nat) (a : ascii) : bool :=
  (lo <=? nat_of_ascii a) && (nat_of_ascii a <=? hi).

(** [\w] is [[0-9A-Za-z_]]. *)
Definition word_char (a : ascii) : bool :=
  in_range 48 57 a || in_range 65 90 a || in_range 97 122 a
  || (nat_of_ascii a =? 95).

(** [\s] is [[\t\n\f\r ]]. *)
Definition space_char (a : ascii) : bool :=
  (nat_of_ascii a =? 9) || (nat_of_ascii a =? 10) || (nat_of_ascii a =? 12)
  || (nat_of_ascii a =? 13) || (nat_of_ascii a =? 32).

(** [[\w\s]] *)
Definition word_or_space (a : ascii) : bool := word_char a || space_char a.

Definition is_empty (s : text) : bool :=
  match s with [] => true | _ :: _ => false end.

(** Greedy iteration of [body]: every way of running [body] at least
    once more (an iteration has to consume input), in the order [body]
    offers them, and last the way that stops here.  [fuel] bounds the
    number of iterations; the length of the input is always enough. *)
Fixpoint star_run (body : text -> submatches -> list (text * submatches))
    (fuel : nat) (s : text) (c : submatches) : list (text * submatches) :=
  match fuel with
  | O => [(s, c)]
  | S fuel' =>
      flat_map (fun sc =>
                  if List.length (fst sc) <? List.length s
                  then star_run body fuel' (fst sc) (snd sc)
                  else [])
               (body s c)
      ++ [(s, c)]
  end.

(** [run r s c]: all the ways [r] matches a prefix of [s], most preferred
    first (leftmost alternative, greedy repetition); each is the rest of
    the input with the submatches after the match. *)
Fixpoint run (r : regexp) (s : text) (c : submatches) {struct r}
    : list (text * submatches) :=
  match r with
  | Lit a =>
      match s with
      | x :: s' => if Ascii.eqb x a then [(s', c)] else []
      | [] => []
      end
  | Class p =>
      match s with
      | x :: s' => if p x then [(s', c)] else []
      | [] => []
      end
  | Cat r1 r2 => flat_map (fun sc => run r2 (fst sc) (snd sc)) (run r1 s c)
  | Alt r1 r2 => run r1 s c ++ run r2 s c
  | Star r1 => star_run (run r1) (List.length s) s c
  | Plus r1 =>
      flat_map (fun sc => star_run (run r1) (List.length (fst sc)) (fst sc) (snd sc))
               (run r1 s c)
  | Quest r1 => run r1 s c ++ [(s, c)]
  | Group i r1 =>
      map (fun sc => (fst sc, (i, firstn (List.length s - List.length (fst sc)) s) :: snd sc))
          (run r1 s c)
  end.

(** [RE2::FullMatch(text, re, ...)]: the most preferred match of the
    whole text, if there is one. *)
Definition FullMatch (t : string) (re : regexp) : option submatches :=
  option_map snd
    (find (fun sc => is_empty (fst sc)) (run re (list_ascii_of_string t) [])).

(** The text handed to the [std::string*] argument bound to group [i]
    (empty when the group took no part in the match). *)
Fixpoint group_text (m : submatches) (i : nat) : text :=
  match m with
  | [] => []
  | (j, w) :: m' => if j =? i then w else group_text m' i
  end.

Definition submatch (m : submatches) (i : nat) : string :=
  string_of_list_ascii (group_text m i).

(** Declarative semantics: [matches r w c c'] says that [r] matches
    exactly [w], taking the submatches [c] to [c']. *)
Inductive matches : regexp -> text -> submatches -> submatches -> Prop :=
| MLit a c : matches (Lit a) [a] c c
| MClass (p : ascii -> bool) a c : p a = true -> matches (Class p) [a] c c
| MCat r1 r2 w1 w2 c c1 c2 :
    matches r1 w1 c c1 -> matches r2 w2 c1 c2 ->
    matches (Cat r1 r2) (w1 ++ w2) c c2
| MAltL r1 r2 w c c1 : matches r1 w c c1 -> matches (Alt r1 r2) w c c1
| MAltR r1 r2 w c c1 : matches r2 w c c1 -> matches (Alt r1 r2) w c c1
| MStarNil r c : matches (Star r) [] c c
| MStarCons r w1 w2 c c1 c2 :
    matches r w1 c c1 -> w1 <> [] -> matches (Star r) w2 c1 c2 ->
    matches (Star r) (w1 ++ w2) c c2
| MPlus r w1 w2 c c1 c2 :
    matches r w1 c c1 -> matches (Star r) w2 c1 c2 ->
    matches (Plus r) (w1 ++ w2) c c2
| MQuestSome r w c c1 : matches r w c c1 -> matches (Quest r) w c c1
| MQuestNone r c : matches (Quest r) [] c c
| MGroup i r w c c1 :
    matches r w c c1 -> matches (Group i r) w c ((i, w) :: c1).

End RE2.

(* ================================================================= *)
(** ** Expression-tree data, statuses and raising calls *)

(** Modelled from the spec: the type categories of a literal operand,
    [arrow::Type::type], declared outside [like_holder.cc].  The code only
    tells [STRING] and [BINARY] from the rest. *)
Inductive ArrowType : Type :=
| NA | BOOL | UINT8 | INT8 | UINT16 | INT16 | UINT32 | INT32 | UINT64 | INT64
| HALF_FLOAT | FLOAT | DOUBLE | STRING | BINARY | FIXED_SIZE_BINARY
| DATE32 | DATE64 | TIMESTAMP | TIME32 | TIME64 | DECIMAL.

(** Modelled from the spec: [arrow::DataType], of which the code reads
    [id()] and which it copies from node to node. *)
Record DataType : Type := mkDataType { id : ArrowType }.

(** Modelled from the spec: [LiteralHolder], the value a literal operand
    carries next to its type category; the value "must be extractable as a
    string" for this module to act on it.  The code builds the variant from
    a [std::string] and reads it with [get<std::string>]; its numeric
    alternatives are folded into one. *)
Inductive LiteralHolder : Type :=
| HoldsBool (b : bool)
| HoldsNumber (n : nat)
| HoldsString (s : string).

(** Modelled from the spec: the node classes of [gandiva/node.h].
    [LiteralNode(type, holder, is_null)] and
    [FunctionNode(name, children, return_type)] are the constructors the
    code calls; [FieldNode] stands for the nodes that are neither. *)
Record LiteralNode : Type := mkLiteralNode {
  literal_return_type : DataType;
  holder : LiteralHolder;
  is_null : bool
}.

Inductive Node : Type :=
| Field (name : string) (type : DataType)
| Literal (l : LiteralNode)
| Function (f : FunctionNode)
with FunctionNode : Type :=
| mkFunctionNode (name : string) (args : list Node) (ret : DataType).

(** [node.descriptor()->name()], [node.children()], [node.return_type()] *)
Definition descriptor_name (f : FunctionNode) : string :=
  match f with mkFunctionNode name _ _ => name end.

Definition children (f : FunctionNode) : list Node :=
  match f with mkFunctionNode _ args _ => args end.

Definition return_type (f : FunctionNode) : DataType :=
  match f with mkFunctionNode _ _ ret => ret end.

(** The virtual [Node::return_type()]. *)
Definition node_return_type (n : Node) : DataType :=
  match n with
  | Field _ type => type
  | Literal l => literal_return_type l
  | Function f => return_type f
  end.

(** [dynamic_cast<LiteralNode*>(p.get())]: [None] is the null pointer. *)
Definition dynamic_cast_LiteralNode (n : Node) : option LiteralNode :=
  match n with
  | Literal l => Some l
  | _ => None
  end.

(** [arrow::Status], of which the code uses [OK] and [Invalid]. *)
Inductive Status : Type :=
| OK
| Invalid (msg : string).

Definition ok (st : Status) : bool :=
  match st with OK => true | Invalid _ => false end.

(** [arrow::Result<T>]: a value or the status of a failure. *)
Inductive Result (A : Type) : Type :=
| ValueOf (a : A)
| Failed (st : Status).
Arguments ValueOf {A} a.
Arguments Failed {A} st.

(** What can go wrong in a C++ call besides a returned [Status]. *)
Inductive fault : Type :=
| out_of_range          (* [std::vector::at] past the end *)
| bad_variant_access    (* [get<T>] on a variant holding another type *)
| null_dereference.     (* [->] on a null pointer *)

Inductive outcome (A : Type) : Type :=
| Returns (a : A)
| Aborts (f : fault).
Arguments Returns {A} a.
Arguments Aborts {A} f.

Definition bind {A B : Type} (m : outcome A) (k : A -> outcome B) : outcome B :=
  match m with
  | Returns a => k a
  | Aborts f => Aborts f
  end.

Declare Scope outcome_scope.
Delimit Scope outcome_scope with outcome.
Notation "x <- m ;; k" := (bind m (fun x => k))
  (at level 61, m at next level, right associativity) : outcome_scope.
Local Open Scope outcome_scope.

(** [v.at(i)] *)
Definition at_ {A : Type} (v : list A) (i : nat) : outcome A :=
  match nth_error v i with
  | Some a => Returns a
  | None => Aborts out_of_range
  end.

(** [p->...] on a pointer that may be null. *)
Definition deref {A : Type} (p : option A) : outcome A :=
  match p with
  | Some a => Returns a
  | None => Aborts null_dereference
  end.

(** [arrow::util::get<std::string>(h)] *)
Definition get_string (h : LiteralHolder) : outcome string :=
  match h with
  | HoldsString s => Returns s
  | _ => Aborts bad_variant_access
  end.

(** The compiled matcher a holder keeps: the engine's verdict on the
    pattern it was built from. *)
Record CompiledPattern : Type := mkCompiledPattern {
  source : string;
  compiled_ok : bool
}.

(** [RegexpMatchesHolder]; [SQLLikeHolder] is the same object reached
    through [static_pointer_cast]. *)
Record RegexpMatchesHolder : Type := mkHolder {
  pattern_ : string;
  regex_ : CompiledPattern
}.

Definition SQLLikeHolder : Type := RegexpMatchesHolder.

Local Open Scope string_scope.
Import RE2.

(** [starts_with_regex_]:  \^ ( [\w\s]+ ) ( \.\* )?  *)
Definition starts_with_regex_ : regexp :=
  Cat (Lit "^")
      (Cat (Group 1 (Plus (Class word_or_space)))
           (Quest (Group 2 (Cat (Lit ".") (Lit "*"))))).

(** [ends_with_regex_]:  ( \.\* )? ( [\w\s]+ ) \$  *)
Definition ends_with_regex_ : regexp :=
  Cat (Quest (Group 1 (Cat (Lit ".") (Lit "*"))))
      (Cat (Group 2 (Plus (Class word_or_space)))
           (Lit "$")).

(** [is_substr_regex_]:  ( \w | \s )*  *)
Definition is_substr_regex_ : regexp :=
  Star (Group 1 (Alt (Class word_char) (Class space_char))).

Definition IsArrowStringLiteral (type : ArrowType) : bool :=
  match type with
  | STRING | BINARY => true
  | _ => false
  end.

Section LikeHolder.

(** The engine's verdict on a pattern: [RE2(pattern).ok()]. *)
Variable re2_ok : string -> bool.

(** [RegexUtil::SqlLikePatternToPcre(sql_pattern, pcre_pattern)]: the
    status and what it leaves in [pcre_pattern]. *)
Variable SqlLikePatternToPcre : string -> Status * string.

(** The constructor [RegexpMatchesHolder(pattern)]. *)
Definition new_RegexpMatchesHolder (pattern : string) : RegexpMatchesHolder :=
  {| pattern_ := pattern;
     regex_ := {| source := pattern; compiled_ok := re2_ok pattern |} |}.

Definition ValidateArguments (node : FunctionNode) : outcome Status :=
  if negb (Nat.eqb (List.length (children node)) 2) then
    Returns (Invalid ("'" ++ descriptor_name node
                          ++ "' function requires two parameters"))
  else
    child <- at_ (children node) 1 ;;
    match dynamic_cast_LiteralNode child with
    | None =>
        Returns (Invalid ("'" ++ descriptor_name node
                              ++ "' function requires a literal as the second parameter"))
    | Some literal =>
        let literal_type := id (literal_return_type literal) in
        if negb (IsArrowStringLiteral literal_type) then
          Returns (Invalid ("'" ++ descriptor_name node
                                ++ "' function requires a string literal as the second parameter"))
        else Returns OK
    end.

Definition GetPattern (node : FunctionNode) : outcome (Result string) :=
  st <- ValidateArguments node ;;
  if negb (ok st) then Returns (Failed st)
  else
    child <- at_ (children node) 1 ;;
    literal <- deref (dynamic_cast_LiteralNode child) ;;
    pattern <- get_string (holder literal) ;;
    Returns (ValueOf pattern).

(** [RegexpMatchesHolder::Make(pcre_pattern, holder)]: the status and the
    value of [*holder] afterwards; [holder] is its value before. *)
Definition Make_pattern (pcre_pattern : string)
    (holder : option RegexpMatchesHolder) : Status * option RegexpMatchesHolder :=
  let lholder := new_RegexpMatchesHolder pcre_pattern in
  if negb (compiled_ok (regex_ lholder)) then
    (Invalid ("Building RE2 pattern '" ++ pcre_pattern ++ "' failed"), holder)
  else (OK, Some lholder).

(** [RegexpMatchesHolder::Make(node, holder)] *)
Definition Make_node (node : FunctionNode)
    (holder : option RegexpMatchesHolder)
    : outcome (Status * option RegexpMatchesHolder) :=
  r <- GetPattern node ;;
  match r with
  | Failed st => Returns (st, holder)
  | ValueOf pattern => Returns (Make_pattern pattern holder)
  end.

(** [RegexpMatchesHolder::TryOptimize(node)].  [FullMatch] with [&substr]
    binds group 1; with [(void* )NULL, &substr] it binds group 2. *)
Definition TryOptimize (node : FunctionNode) : outcome FunctionNode :=
  made <- Make_node node None ;;
  let status := fst made in
  let holder := snd made in
  if ok status then
    h <- deref holder ;;
    let pattern := pattern_ h in
    child1 <- at_ (children node) 1 ;;
    let literal_type := node_return_type child1 in
    match FullMatch pattern starts_with_regex_ with
    | Some m =>
        let substr := submatch m 1 in
        let prefix_node :=
          Literal (mkLiteralNode literal_type (HoldsString substr) false) in
        child0 <- at_ (children node) 0 ;;
        Returns (mkFunctionNode "starts_with" [child0; prefix_node]
                                (return_type node))
    | None =>
        match FullMatch pattern ends_with_regex_ with
        | Some m =>
            let substr := submatch m 2 in
            let suffix_node :=
              Literal (mkLiteralNode literal_type (HoldsString substr) false) in
            child0 <- at_ (children node) 0 ;;
            Returns (mkFunctionNode "ends_with" [child0; suffix_node]
                                    (return_type node))
        | None =>
            match FullMatch pattern is_substr_regex_ with
            | Some _ =>
                let substr_node :=
                  Literal (mkLiteralNode literal_type (HoldsString pattern) false) in
                child0 <- at_ (children node) 0 ;;
                Returns (mkFunctionNode "is_substr" [child0; substr_node]
                                        (return_type node))
            | None => Returns node
            end
        end
    end
  else Returns node.

(** [SQLLikeHolder::Make(sql_pattern, holder)].  [base_holder] starts
    null, and the status of the inner [Make] is dropped. *)
Definition SQLLike_Make_pattern (sql_pattern : string)
    (holder : option SQLLikeHolder) : Status * option SQLLikeHolder :=
  let translated := SqlLikePatternToPcre sql_pattern in
  if negb (ok (fst translated)) then (fst translated, holder)
  else
    let pcre_pattern := snd translated in
    let base_holder := snd (Make_pattern pcre_pattern None) in
    (OK, base_holder).

(** [SQLLikeHolder::Make(node, holder)] *)
Definition SQLLike_Make_node (node : FunctionNode)
    (holder : option SQLLikeHolder) : outcome (Status * option SQLLikeHolder) :=
  r <- GetPattern node ;;
  match r with
  | Failed st => Returns (st, holder)
  | ValueOf pattern => Returns (SQLLike_Make_pattern pattern holder)
  end.

End LikeHolder.

(* ================================================================= *)
(** ** The recognizer shapes, stated on the pattern text *)

(** Every character is a word or whitespace character. *)
Definition all_word_or_space (s : string) : bool :=
  forallb word_or_space (list_ascii_of_string s).

(** The two-character marker, a dot and a star. *)
Definition wildcard_marker : string := ".*".

Definition dot_star : text := list_ascii_of_string wildcard_marker.

(** Anchor-start, one or more word or whitespace characters (the
    capture), optionally the wildcard marker. *)
Definition prefix_shape (pattern capture : string) : Prop :=
  exists tail,
    pattern = "^" ++ capture ++ tail
    /\ capture <> ""
    /\ all_word_or_space capture = true
    /\ (tail = "" \/ tail = wildcard_marker).

(** Optionally the wildcard marker, one or more word or whitespace
    characters (the capture), anchor-end. *)
Definition suffix_shape (pattern capture : string) : Prop :=
  exists head,
    pattern = head ++ capture ++ "$"
    /\ capture <> ""
    /\ all_word_or_space capture = true
    /\ (head = "" \/ head = wildcard_marker).

(** Word or whitespace characters only, possibly none. *)
Definition substr_shape (pattern : string) : Prop :=
  all_word_or_space pattern = true.

(** A literal whose declared type is string-like holds a string. *)
Definition literal_well_typed (l : LiteralNode) : Prop :=
  IsArrowStringLiteral (id (literal_return_type l)) = true ->
  exists s, holder l = HoldsString s.

(** The literal operand of a call, when it has one in second place, is
    well typed. *)
Definition operand_well_typed (node : FunctionNode) : Prop :=
  forall l, nth_error (children node) 1 = Some (Literal l) ->
            literal_well_typed l.

(** The three messages of [ValidateArguments]. *)
Definition InvalidShape (node : FunctionNode) (st : Status) : Prop :=
  st = Invalid ("'" ++ descriptor_name node
                    ++ "' function requires two parameters")
  \/ st = Invalid ("'" ++ descriptor_name node
                       ++ "' function requires a literal as the second parameter")
  \/ st = Invalid ("'" ++ descriptor_name node
                       ++ "' function requires a string literal as the second parameter").

(** The message of the string-based [Make]. *)
Definition InvalidPattern (pattern : string) (st : Status) : Prop :=
  st = Invalid ("Building RE2 pattern '" ++ pattern ++ "' failed").

(** The node the rewriting branches of [TryOptimize] build: the call of
    [op] on [child0] and a fresh non-null literal holding [literal], typed
    as [child1], with the result type of [node]. *)
Definition replacement (node : FunctionNode) (child0 child1 : Node)
    (op literal : string) : FunctionNode :=
  mkFunctionNode op
    [child0;
     Literal (mkLiteralNode (node_return_type child1)
                            (HoldsString literal) false)]
    (return_type node).

(** The three tests of [TryOptimize] in their order: the operation and the
    literal of the first recognizer that full-matches [pattern]. *)
Definition recognize (pattern : string) : option (string * string) :=
  match FullMatch pattern starts_with_regex_ with
  | Some m => Some ("starts_with", submatch m 1)
  | None =>
      match FullMatch pattern ends_with_regex_ with
      | Some m => Some ("ends_with", submatch m 2)
      | None =>
          match FullMatch pattern is_substr_regex_ with
          | Some _ => Some ("is_substr", pattern)
          | None => None
          end
      end
  end.

(** The four ways a call node can look to [ValidateArguments]. *)
Inductive node_view (node : FunctionNode) : Type :=
| WrongArity : List.length (children node) <> 2 -> node_view node
| NoLiteral child0 child1 :
    children node = [child0; child1] ->
    dynamic_cast_LiteralNode child1 = None -> node_view node
| NoString child0 l :
    children node = [child0; Literal l] ->
    IsArrowStringLiteral (id (literal_return_type l)) = false ->
    node_view node
| Valid child0 l :
    children node = [child0; Literal l] ->
    IsArrowStringLiteral (id (literal_return_type l)) = true ->
    node_view node.

(** A holder as its constructor leaves it when the engine accepts the
    pattern: the matcher was built from [pattern_] and compiled. *)
Definition holder_well_formed (h : RegexpMatchesHolder) : Prop :=
  source (regex_ h) = pattern_ h /\ compiled_ok (regex_ h) = true.

(** The same of what [*holder] points to, a null pointer included. *)
Definition holder_slot_ok (slot : option RegexpMatchesHolder) : Prop :=
  match slot with
  | Some h => holder_well_formed h
  | None => True
  end.

(* ================================================================= *)
(** ** Sample collaborators, for evaluating the code on examples *)

Definition regex_metachar (a : ascii) : bool :=
  existsb (Ascii.eqb a) (list_ascii_of_string "^$.").

(** Texts made of word characters, whitespace, anchors, dots and stars
    that directly follow a dot. *)
Fixpoint sample_scan (after_dot : bool) (l : list ascii) : bool :=
  match l with
  | [] => true
  | a :: l' =>
      if Ascii.eqb a "*" then after_dot && sample_scan false l'
      else (word_or_space a || regex_metachar a)
           && sample_scan (Ascii.eqb a ".") l'
  end.

(** An engine verdict that accepts those texts, all of which the engine
    compiles, and rejects the others, among them the bytes that are no
    UTF-8. *)
Definition sample_re2_ok (p : string) : bool :=
  sample_scan false (list_ascii_of_string p).

(** A translator that hands a LIKE text without wildcards and without
    escapes through as it is. *)
Definition sample_SqlLikePatternToPcre (sql : string) : Status * string :=
  (OK, sql).

Definition utf8 : DataType := mkDataType STRING.
Definition boolean : DataType := mkDataType BOOL.
Definition int32 : DataType := mkDataType INT32.

(** The one-byte text 0xFF, which is no UTF-8 and which the engine
    rejects. *)
Definition invalid_utf8 : string :=
  String (Ascii true true true true true true true true) EmptyString.

(** A call whose literal is declared a string and holds a number. *)
Definition ill_typed_call : FunctionNode :=
  mkFunctionNode "like"
    [Field "x" utf8; Literal (mkLiteralNode utf8 (HoldsNumber 5) false)]
    boolean.

(** The call [name(x, 'pattern')] on a string column [x]. *)
Definition call_on_x (name pattern : string) : FunctionNode :=
  mkFunctionNode name
    [Field "x" utf8; Literal (mkLiteralNode utf8 (HoldsString pattern) false)]
    boolean.

(* ================================================================= *)
(** ** The matcher agrees with the declarative semantics *)

Module RE2Facts.

Local Open Scope list_scope.

Lemma flat_map_all_nil {A B : Type} (f : A -> list B) (l : list A) :
  (forall x, f x = []) -> flat_map f l = [].
Proof.
  intros Hf. induction l as [|x l IH]; simpl; [reflexivity|].
  now rewrite Hf, IH.
Qed.

Lemma firstn_consumed {A : Type} (w rest : list A) :
  firstn (List.length (w ++ rest) - List.length rest) (w ++ rest) = w.
Proof.
  rewrite List.length_app, Nat.add_sub.
  induction w as [|a w IH]; simpl.
  - now destruct rest.
  - now rewrite IH.
Qed.

(** Once the fuel covers the input, more fuel changes nothing. *)
Lemma star_run_fuel body : forall f1 f2 s c,
  List.length s <= f1 -> List.length s <= f2 ->
  star_run body f1 s c = star_run body f2 s c.
Proof.
  assert (Hnil : forall f c, star_run body f [] c = [([], c)]).
  { intros [|f] c; simpl; [reflexivity|].
    now rewrite flat_map_all_nil. }
  induction f1 as [|f1 IH]; intros f2 s c H1 H2.
  - destruct s; [|simpl in H1; lia]. now rewrite !Hnil.
  - destruct f2 as [|f2].
    + destruct s; [|simpl in H2; lia]. now rewrite !Hnil.
    + simpl. f_equal. apply flat_map_ext. intros [s1 c1]. simpl.
      destruct (Nat.ltb_spec (List.length s1) (List.length s)); [|reflexivity].
      apply IH; lia.
Qed.

Lemma star_run_stop body fuel s c : In (s, c) (star_run body fuel s c).
Proof.
  destruct fuel; simpl; [now left|].
  apply in_or_app. right. now left.
Qed.

Lemma star_run_sound body r :
  (forall s c rest c', In (rest, c') (body s c) ->
     exists w, s = w ++ rest /\ matches r w c c') ->
  forall fuel s c rest c', In (rest, c') (star_run body fuel s c) ->
     exists w, s = w ++ rest /\ matches (Star r) w c c'.
Proof.
  intros Hbody. induction fuel as [|fuel IH]; intros s c rest c' Hin;
    simpl in Hin.
  - destruct Hin as [E|[]]. inversion E; subst.
    exists []. split; [reflexivity|constructor].
  - apply in_app_or in Hin. destruct Hin as [Hin|[E|[]]].
    + apply in_flat_map in Hin. destruct Hin as [[s1 c1] [H1 H2]].
      simpl in H2.
      destruct (Nat.ltb_spec (List.length s1) (List.length s)) as [Hlt|];
        [|contradiction].
      apply Hbody in H1. destruct H1 as [w1 [E1 M1]].
      apply IH in H2. destruct H2 as [w2 [E2 M2]].
      exists (w1 ++ w2). split.
      * subst. now rewrite app_assoc.
      * eapply MStarCons; eauto. intros ->. simpl in E1. subst. lia.
    + inversion E; subst. exists []. split; [reflexivity|constructor].
Qed.

(** Every result of [run] is a match of a prefix of the input. *)
Lemma run_sound r : forall s c rest c',
  In (rest, c') (run r s c) ->
  exists w, s = w ++ rest /\ matches r w c c'.
Proof.
  induction r as [a|p|r1 IH1 r2 IH2|r1 IH1 r2 IH2|r IH|r IH|r IH|i r IH];
    intros s c rest c' Hin; simpl in Hin.
  - destruct s as [|x s]; [contradiction|].
    destruct (Ascii.eqb_spec x a); [|contradiction].
    destruct Hin as [E|[]]. inversion E; subst.
    exists [a]. split; [reflexivity|constructor].
  - destruct s as [|x s]; [contradiction|].
    destruct (p x) eqn:Hp; [|contradiction].
    destruct Hin as [E|[]]. inversion E; subst.
    exists [x]. split; [reflexivity|now constructor].
  - apply in_flat_map in Hin. destruct Hin as [[s1 c1] [H1 H2]]. simpl in H2.
    apply IH1 in H1. destruct H1 as [w1 [E1 M1]].
    apply IH2 in H2. destruct H2 as [w2 [E2 M2]].
    exists (w1 ++ w2). split; [subst; now rewrite app_assoc|].
    econstructor; eauto.
  - apply in_app_or in Hin. destruct Hin as [Hin|Hin].
    + apply IH1 in Hin. destruct Hin as [w [E M]]. exists w. split; [easy|].
      now apply MAltL.
    + apply IH2 in Hin. destruct Hin as [w [E M]]. exists w. split; [easy|].
      now apply MAltR.
  - eapply star_run_sound; eauto.
  - apply in_flat_map in Hin. destruct Hin as [[s1 c1] [H1 H2]]. simpl in H2.
    apply IH in H1. destruct H1 as [w1 [E1 M1]].
    eapply star_run_sound in H2; eauto. destruct H2 as [w2 [E2 M2]].
    exists (w1 ++ w2). split; [subst; now rewrite app_assoc|].
    econstructor; eauto.
  - apply in_app_or in Hin. destruct Hin as [Hin|[E|[]]].
    + apply IH in Hin. destruct Hin as [w [E M]]. exists w. split; [easy|].
      now apply MQuestSome.
    + inversion E; subst. exists []. split; [reflexivity|apply MQuestNone].
  - apply in_map_iff in Hin. destruct Hin as [[s1 c1] [E Hin]].
    simpl in E. inversion E; subst. clear E.
    apply IH in Hin. destruct Hin as [w [E M]]. subst s.
    rewrite firstn_consumed. exists w. split; [reflexivity|].
    now constructor.
Qed.

(** Every match of a prefix of the input is among the results of [run]. *)
Lemma run_complete r w c c' :
  matches r w c c' -> forall rest, In (rest, c') (run r (w ++ rest) c).
Proof.
  induction 1 as [a c|p a c Hp|r1 r2 w1 w2 c c1 c2 _ IH1 _ IH2
                 |r1 r2 w c c1 _ IH|r1 r2 w c c1 _ IH
                 |r c|r w1 w2 c c1 c2 _ IH1 Hne _ IH2
                 |r w1 w2 c c1 c2 _ IH1 _ IH2
                 |r w c c1 _ IH|r c|i r w c c1 _ IH];
    intros rest; simpl.
  - rewrite Ascii.eqb_refl. now left.
  - rewrite Hp. now left.
  - rewrite <- app_assoc. apply in_flat_map.
    exists (w2 ++ rest, c1). split; [apply IH1|apply IH2].
  - apply in_or_app. left. apply IH.
  - apply in_or_app. right. apply IH.
  - apply star_run_stop.
  - rewrite <- app_assoc.
    destruct w1 as [|a w1]; [congruence|]. simpl.
    apply in_or_app. left. apply in_flat_map.
    exists (w2 ++ rest, c1). split; [apply (IH1 (w2 ++ rest))|]. simpl.
    destruct (Nat.ltb_spec (List.length (w2 ++ rest))
                           (S (List.length (w1 ++ w2 ++ rest)))) as [_|Hge].
    + specialize (IH2 rest). simpl in IH2.
      erewrite star_run_fuel; [exact IH2| |lia].
      rewrite !List.length_app. lia.
    + rewrite !List.length_app in Hge. lia.
  - rewrite <- app_assoc. apply in_flat_map.
    exists (w2 ++ rest, c1). split; [apply IH1|apply IH2].
  - apply in_or_app. left. apply IH.
  - apply in_or_app. right. now left.
  - apply in_map_iff. exists (rest, c1). simpl.
    split; [|apply IH]. now rewrite firstn_consumed.
Qed.

(** [FullMatch] succeeds exactly on the texts the expression matches, and
    the submatches it reports are those of a match. *)
Lemma FullMatch_sound t re m :
  FullMatch t re = Some m -> matches re (list_ascii_of_string t) [] m.
Proof.
  unfold FullMatch.
  destruct (find _ _) as [[rest c']|] eqn:F; simpl; [|discriminate].
  intros [= <-]. apply find_some in F. destruct F as [Hin He]. simpl in He.
  destruct rest; [|discriminate].
  apply run_sound in Hin. destruct Hin as [w [E M]].
  rewrite app_nil_r in E. now subst.
Qed.

Lemma FullMatch_complete t re m :
  matches re (list_ascii_of_string t) [] m ->
  exists m', FullMatch t re = Some m'.
Proof.
  intros M. apply run_complete with (rest := []) in M.
  rewrite app_nil_r in M. unfold FullMatch.
  destruct (find _ _) as [p|] eqn:F; simpl; [eauto|].
  eapply find_none in F; eauto. discriminate.
Qed.

(** Inversion of [matches], one lemma per constructor of [regexp]. *)
Lemma matches_lit_inv a w c c' :
  matches (Lit a) w c c' -> w = [a] /\ c' = c.
Proof. intros M. inversion M; subst. now split. Qed.

Lemma matches_class_inv p w c c' :
  matches (Class p) w c c' -> exists a, w = [a] /\ p a = true /\ c' = c.
Proof. intros M. inversion M; subst. eauto. Qed.

Lemma matches_cat_inv r1 r2 w c c' :
  matches (Cat r1 r2) w c c' ->
  exists w1 w2 c1,
    w = w1 ++ w2 /\ matches r1 w1 c c1 /\ matches r2 w2 c1 c'.
Proof. intros M. inversion M; subst. eauto 6. Qed.

Lemma matches_alt_inv r1 r2 w c c' :
  matches (Alt r1 r2) w c c' -> matches r1 w c c' \/ matches r2 w c c'.
Proof. intros M. inversion M; subst; auto. Qed.

Lemma matches_plus_inv r w c c' :
  matches (Plus r) w c c' ->
  exists w1 w2 c1,
    w = w1 ++ w2 /\ matches r w1 c c1 /\ matches (Star r) w2 c1 c'.
Proof. intros M. inversion M; subst. eauto 6. Qed.

Lemma matches_quest_inv r w c c' :
  matches (Quest r) w c c' -> matches r w c c' \/ (w = [] /\ c' = c).
Proof. intros M. inversion M; subst; auto. Qed.

Lemma matches_group_inv i r w c c' :
  matches (Group i r) w c c' ->
  exists c1, c' = (i, w) :: c1 /\ matches r w c c1.
Proof. intros M. inversion M; subst. eauto. Qed.

End RE2Facts.

(* ================================================================= *)
(** ** What the three recognizers accept and capture *)

Module Recognizers.

Import RE2Facts.
Local Open Scope list_scope.

Lemma list_of_append (a b : string) :
  list_ascii_of_string (a ++ b)%string
  = list_ascii_of_string a ++ list_ascii_of_string b.
Proof. induction a as [|x a IH]; simpl; [reflexivity|now rewrite IH]. Qed.

Lemma string_of_app (a b : text) :
  string_of_list_ascii (a ++ b)
  = (string_of_list_ascii a ++ string_of_list_ascii b)%string.
Proof. induction a as [|x a IH]; simpl; [reflexivity|now rewrite IH]. Qed.

Lemma list_of_inj (a b : string) :
  list_ascii_of_string a = list_ascii_of_string b -> a = b.
Proof.
  intros E. rewrite <- (string_of_list_ascii_of_string a),
    <- (string_of_list_ascii_of_string b). now rewrite E.
Qed.

(** *** Repetition of a character class *)

Lemma matches_star_class p w c c' :
  matches (Star (Class p)) w c c' -> forallb p w = true /\ c' = c.
Proof.
  intros M. remember (Star (Class p)) as r eqn:Er.
  induction M as [ | | | | | r0 c0 | r0 w1 w2 c0 c1 c2 M1 _ Hne M2 IH2
                 | | | | ]; inversion Er; subst.
  - now split.
  - apply matches_class_inv in M1. destruct M1 as [a [-> [Ha ->]]].
    destruct (IH2 eq_refl) as [Hw ->].
    split; [|reflexivity]. simpl. now rewrite Ha.
Qed.

Lemma matches_plus_class p w c c' :
  matches (Plus (Class p)) w c c' ->
  w <> [] /\ forallb p w = true /\ c' = c.
Proof.
  intros M. apply matches_plus_inv in M.
  destruct M as [w1 [w2 [c1 [-> [M1 M2]]]]].
  apply matches_class_inv in M1. destruct M1 as [a [-> [Ha ->]]].
  apply matches_star_class in M2. destruct M2 as [Hw ->].
  repeat split; [discriminate|]. simpl. now rewrite Ha.
Qed.

Lemma star_class_matches p w c :
  forallb p w = true -> matches (Star (Class p)) w c c.
Proof.
  induction w as [|a w IH]; simpl; intros H; [constructor|].
  apply andb_true_iff in H. destruct H as [Ha Hw].
  apply (MStarCons (Class p) [a] w c c c);
    [now constructor|discriminate|now apply IH].
Qed.

Lemma plus_class_matches p w c :
  w <> [] -> forallb p w = true -> matches (Plus (Class p)) w c c.
Proof.
  destruct w as [|a w]; [congruence|]. simpl. intros _ H.
  apply andb_true_iff in H. destruct H as [Ha Hw].
  apply (MPlus (Class p) [a] w c c c);
    [now constructor|now apply star_class_matches].
Qed.

(** *** The optional wildcard marker *)

Lemma matches_opt_marker i w c c' :
  matches (Quest (Group i (Cat (Lit ".") (Lit "*")))) w c c' ->
  (w = [] /\ c' = c) \/ (w = dot_star /\ c' = (i, dot_star) :: c).
Proof.
  intros M. apply matches_quest_inv in M. destruct M as [M|M]; [|now left].
  right. apply matches_group_inv in M. destruct M as [c1 [-> M]].
  apply matches_cat_inv in M. destruct M as [w1 [w2 [c2 [-> [M1 M2]]]]].
  apply matches_lit_inv in M1. destruct M1 as [-> ->].
  apply matches_lit_inv in M2. destruct M2 as [-> ->].
  now split.
Qed.

Lemma opt_marker_matches i t c :
  t = [] \/ t = dot_star ->
  exists c', matches (Quest (Group i (Cat (Lit ".") (Lit "*")))) t c c'.
Proof.
  intros [->| ->].
  - exists c. apply MQuestNone.
  - exists ((i, dot_star) :: c). apply MQuestSome. apply MGroup.
    apply (MCat (Lit ".") (Lit "*") ["."%char] ["*"%char] c c c); constructor.
Qed.

(** A run of class characters is delimited by what follows it. *)
Lemma class_run_unique (p : ascii -> bool) w1 w2 t1 t2 :
  forallb p w1 = true -> forallb p w2 = true ->
  (forall a t, t1 = a :: t -> p a = false) ->
  (forall a t, t2 = a :: t -> p a = false) ->
  w1 ++ t1 = w2 ++ t2 -> w1 = w2.
Proof.
  revert w2. induction w1 as [|a w1 IH]; intros [|b w2]; simpl;
    intros H1 H2 Ht1 Ht2 E.
  - reflexivity.
  - apply andb_true_iff in H2. destruct H2 as [Hb _].
    rewrite (Ht1 b _ E) in Hb. discriminate.
  - apply andb_true_iff in H1. destruct H1 as [Ha _].
    rewrite (Ht2 a _ (eq_sym E)) in Ha. discriminate.
  - apply andb_true_iff in H1. destruct H1 as [_ H1].
    apply andb_true_iff in H2. destruct H2 as [_ H2].
    inversion E; subst. f_equal. now apply IH.
Qed.

Lemma marker_not_in_class t :
  t = [] \/ t = dot_star -> forall a t', t = a :: t' -> word_or_space a = false.
Proof. intros [->| ->] a t' E; [discriminate|]. now inversion E. Qed.

(** *** [starts_with_regex_] *)

Lemma starts_with_inv l m :
  matches starts_with_regex_ l [] m ->
  exists w t,
    l = "^"%char :: w ++ t /\ w <> [] /\ forallb word_or_space w = true
    /\ (t = [] \/ t = dot_star) /\ group_text m 1 = w.
Proof.
  unfold starts_with_regex_. intros M.
  apply matches_cat_inv in M. destruct M as [w0 [l1 [c0 [-> [M0 M]]]]].
  apply matches_lit_inv in M0. destruct M0 as [-> ->].
  apply matches_cat_inv in M. destruct M as [w [t [c1 [-> [M1 M2]]]]].
  apply matches_group_inv in M1. destruct M1 as [c2 [-> M1]].
  apply matches_plus_class in M1. destruct M1 as [Hne [Hw ->]].
  apply matches_opt_marker in M2.
  exists w, t. simpl. split; [reflexivity|]. split; [exact Hne|].
  split; [exact Hw|].
  destruct M2 as [[-> ->]|[-> ->]]; simpl; auto.
Qed.

Lemma starts_with_matches w t :
  w <> [] -> forallb word_or_space w = true -> (t = [] \/ t = dot_star) ->
  exists m, matches starts_with_regex_ ("^"%char :: w ++ t) [] m.
Proof.
  intros Hne Hw Ht.
  destruct (opt_marker_matches 2 t [(1, w)] Ht) as [m Hm].
  exists m. unfold starts_with_regex_.
  apply (MCat _ _ ["^"%char] (w ++ t) [] [] m); [constructor|].
  apply (MCat _ _ w t [] [(1, w)] m); [|exact Hm].
  apply MGroup. now apply plus_class_matches.
Qed.

(** *** [ends_with_regex_] *)

Lemma ends_with_inv l m :
  matches ends_with_regex_ l [] m ->
  exists h w,
    l = h ++ w ++ ["$"%char] /\ w <> [] /\ forallb word_or_space w = true
    /\ (h = [] \/ h = dot_star) /\ group_text m 2 = w.
Proof.
  unfold ends_with_regex_. intros M.
  apply matches_cat_inv in M. destruct M as [h [l1 [c0 [-> [M0 M]]]]].
  apply matches_cat_inv in M. destruct M as [w [e [c1 [-> [M1 M2]]]]].
  apply matches_lit_inv in M2. destruct M2 as [-> ->].
  apply matches_group_inv in M1. destruct M1 as [c2 [-> M1]].
  apply matches_plus_class in M1. destruct M1 as [Hne [Hw ->]].
  apply matches_opt_marker in M0.
  exists h, w. simpl. split; [reflexivity|]. split; [exact Hne|].
  split; [exact Hw|].
  destruct M0 as [[-> ->]|[-> ->]]; simpl; auto.
Qed.

Lemma ends_with_matches h w :
  w <> [] -> forallb word_or_space w = true -> (h = [] \/ h = dot_star) ->
  exists m, matches ends_with_regex_ (h ++ w ++ ["$"%char]) [] m.
Proof.
  intros Hne Hw Hh.
  destruct (opt_marker_matches 1 h [] Hh) as [c1 Hc1].
  exists ((2, w) :: c1). unfold ends_with_regex_.
  apply (MCat _ _ h (w ++ ["$"%char]) [] c1 _); [exact Hc1|].
  apply (MCat _ _ w ["$"%char] c1 ((2, w) :: c1) _); [|constructor].
  apply MGroup. now apply plus_class_matches.
Qed.

Lemma suffix_run_unique h1 h2 w1 w2 :
  (h1 = [] \/ h1 = dot_star) -> (h2 = [] \/ h2 = dot_star) ->
  w1 <> [] -> w2 <> [] ->
  forallb word_or_space w1 = true -> forallb word_or_space w2 = true ->
  h1 ++ w1 ++ ["$"%char] = h2 ++ w2 ++ ["$"%char] -> w1 = w2.
Proof.
  intros [->| ->] [->| ->] N1 N2 H1 H2 E; simpl in E.
  - now apply app_inv_tail in E.
  - destruct w1 as [|a w1]; [congruence|]. inversion E; subst.
    simpl in H1. discriminate.
  - destruct w2 as [|a w2]; [congruence|]. inversion E; subst.
    simpl in H2. discriminate.
  - inversion E as [E']. now apply app_inv_tail in E'.
Qed.

(** *** [is_substr_regex_] *)

Lemma is_substr_inv w c c' :
  matches is_substr_regex_ w c c' -> forallb word_or_space w = true.
Proof.
  unfold is_substr_regex_. intros M.
  remember (Star (Group 1 (Alt (Class word_char) (Class space_char)))) as r
    eqn:Er.
  induction M as [ | | | | | r0 c0 | r0 w1 w2 c0 c1 c2 M1 _ Hne M2 IH2
                 | | | | ]; inversion Er; subst; [reflexivity|].
  rewrite forallb_app, (IH2 eq_refl), andb_true_r.
  apply matches_group_inv in M1. destruct M1 as [c3 [-> M1]].
  unfold word_or_space.
  apply matches_alt_inv in M1. destruct M1 as [M1|M1];
    apply matches_class_inv in M1; destruct M1 as [a [-> [Ha _]]];
    simpl; rewrite Ha; [reflexivity|now rewrite orb_true_r].
Qed.

Lemma is_substr_matches w : forall c,
  forallb word_or_space w = true ->
  exists c', matches is_substr_regex_ w c c'.
Proof.
  unfold is_substr_regex_.
  induction w as [|a w IH]; simpl; intros c H; [exists c; constructor|].
  apply andb_true_iff in H. destruct H as [Ha Hw].
  destruct (IH ((1, [a]) :: c) Hw) as [c' M].
  exists c'.
  apply (MStarCons _ [a] w c ((1, [a]) :: c) c'); [|discriminate|exact M].
  apply MGroup. unfold word_or_space in Ha. apply orb_true_iff in Ha.
  destruct Ha as [Ha|Ha]; [apply MAltL|apply MAltR]; now constructor.
Qed.

(** *** The recognizers on pattern texts *)

Lemma list_of_nonempty (s : string) :
  s <> ""%string -> list_ascii_of_string s <> [].
Proof. destruct s; [congruence|discriminate]. Qed.

Lemma string_of_nonempty (w : text) :
  w <> [] -> string_of_list_ascii w <> ""%string.
Proof. destruct w; [congruence|discriminate]. Qed.

Lemma marker_as_list (t : string) :
  t = ""%string \/ t = wildcard_marker ->
  list_ascii_of_string t = [] \/ list_ascii_of_string t = dot_star.
Proof. intros [->| ->]; [now left|now right]. Qed.

Lemma marker_as_string (t : text) :
  t = [] \/ t = dot_star ->
  string_of_list_ascii t = ""%string \/ string_of_list_ascii t = wildcard_marker.
Proof. intros [->| ->]; [now left|now right]. Qed.

Lemma all_word_or_space_string_of (w : text) :
  all_word_or_space (string_of_list_ascii w) = forallb word_or_space w.
Proof.
  unfold all_word_or_space. now rewrite list_ascii_of_string_of_list_ascii.
Qed.

Lemma prefix_shape_list p s :
  prefix_shape p s ->
  exists t,
    list_ascii_of_string p = "^"%char :: list_ascii_of_string s ++ t
    /\ list_ascii_of_string s <> []
    /\ forallb word_or_space (list_ascii_of_string s) = true
    /\ (t = [] \/ t = dot_star).
Proof.
  intros [tail [-> [Hne [Hw Ht]]]]. exists (list_ascii_of_string tail).
  simpl. rewrite list_of_append.
  auto using list_of_nonempty, marker_as_list.
Qed.

Lemma suffix_shape_list p s :
  suffix_shape p s ->
  exists h,
    list_ascii_of_string p = h ++ list_ascii_of_string s ++ ["$"%char]
    /\ list_ascii_of_string s <> []
    /\ forallb word_or_space (list_ascii_of_string s) = true
    /\ (h = [] \/ h = dot_star).
Proof.
  intros [head [-> [Hne [Hw Hh]]]]. exists (list_ascii_of_string head).
  rewrite !list_of_append.
  auto using list_of_nonempty, marker_as_list.
Qed.

(** The capture of a shape is determined by the pattern. *)
Lemma prefix_shape_unique p s1 s2 :
  prefix_shape p s1 -> prefix_shape p s2 -> s1 = s2.
Proof.
  intros H1 H2. apply prefix_shape_list in H1, H2.
  destruct H1 as [t1 [E1 [_ [W1 T1]]]]. destruct H2 as [t2 [E2 [_ [W2 T2]]]].
  rewrite E1 in E2. inversion E2 as [E].
  apply list_of_inj.
  exact (class_run_unique word_or_space _ _ t1 t2 W1 W2
           (marker_not_in_class _ T1) (marker_not_in_class _ T2) E).
Qed.

Lemma suffix_shape_unique p s1 s2 :
  suffix_shape p s1 -> suffix_shape p s2 -> s1 = s2.
Proof.
  intros H1 H2. apply suffix_shape_list in H1, H2.
  destruct H1 as [h1 [E1 [N1 [W1 T1]]]]. destruct H2 as [h2 [E2 [N2 [W2 T2]]]].
  rewrite E1 in E2. apply list_of_inj.
  exact (suffix_run_unique h1 h2 _ _ T1 T2 N1 N2 W1 W2 E2).
Qed.

(** [FullMatch] against [starts_with_regex_] succeeds exactly on the
    prefix shape, and group 1 is its capture. *)
Lemma starts_with_sound p m :
  FullMatch p starts_with_regex_ = Some m -> prefix_shape p (submatch m 1).
Proof.
  intros F. apply FullMatch_sound, starts_with_inv in F.
  destruct F as [w [t [E [Hne [Hw [Ht G]]]]]].
  unfold submatch. rewrite G. exists (string_of_list_ascii t).
  split; [|split; [|split]].
  - rewrite <- (string_of_list_ascii_of_string p), E. simpl.
    now rewrite string_of_app.
  - now apply string_of_nonempty.
  - now rewrite all_word_or_space_string_of.
  - now apply marker_as_string.
Qed.

Lemma starts_with_complete p s :
  prefix_shape p s ->
  exists m, FullMatch p starts_with_regex_ = Some m /\ submatch m 1 = s.
Proof.
  intros H. pose proof H as Hl. apply prefix_shape_list in Hl.
  destruct Hl as [t [E [Hne [Hw Ht]]]].
  destruct (starts_with_matches _ _ Hne Hw Ht) as [m0 M]. rewrite <- E in M.
  apply FullMatch_complete in M. destruct M as [m F].
  exists m. split; [exact F|].
  eapply prefix_shape_unique; eauto using starts_with_sound.
Qed.

Lemma starts_with_none p :
  FullMatch p starts_with_regex_ = None <-> ~ exists s, prefix_shape p s.
Proof.
  split.
  - intros F [s H]. apply starts_with_complete in H.
    destruct H as [m [F' _]]. congruence.
  - intros H. destruct (FullMatch p starts_with_regex_) eqn:F; [|reflexivity].
    exfalso. apply H. eauto using starts_with_sound.
Qed.

(** [FullMatch] against [ends_with_regex_] succeeds exactly on the suffix
    shape, and group 2 is its capture. *)
Lemma ends_with_sound p m :
  FullMatch p ends_with_regex_ = Some m -> suffix_shape p (submatch m 2).
Proof.
  intros F. apply FullMatch_sound, ends_with_inv in F.
  destruct F as [h [w [E [Hne [Hw [Hh G]]]]]].
  unfold submatch. rewrite G. exists (string_of_list_ascii h).
  split; [|split; [|split]].
  - rewrite <- (string_of_list_ascii_of_string p), E.
    now rewrite !string_of_app.
  - now apply string_of_nonempty.
  - now rewrite all_word_or_space_string_of.
  - now apply marker_as_string.
Qed.

Lemma ends_with_complete p s :
  suffix_shape p s ->
  exists m, FullMatch p ends_with_regex_ = Some m /\ submatch m 2 = s.
Proof.
  intros H. pose proof H as Hl. apply suffix_shape_list in Hl.
  destruct Hl as [h [E [Hne [Hw Hh]]]].
  destruct (ends_with_matches _ _ Hne Hw Hh) as [m0 M]. rewrite <- E in M.
  apply FullMatch_complete in M. destruct M as [m F].
  exists m. split; [exact F|].
  eapply suffix_shape_unique; eauto using ends_with_sound.
Qed.

Lemma ends_with_none p :
  FullMatch p ends_with_regex_ = None <-> ~ exists s, suffix_shape p s.
Proof.
  split.
  - intros F [s H]. apply ends_with_complete in H.
    destruct H as [m [F' _]]. congruence.
  - intros H. destruct (FullMatch p ends_with_regex_) eqn:F; [|reflexivity].
    exfalso. apply H. eauto using ends_with_sound.
Qed.

(** [FullMatch] against [is_substr_regex_] succeeds exactly on the plain
    shape. *)
Lemma is_substr_sound p m :
  FullMatch p is_substr_regex_ = Some m -> substr_shape p.
Proof. intros F. now apply FullMatch_sound, is_substr_inv in F. Qed.

Lemma is_substr_complete p :
  substr_shape p -> exists m, FullMatch p is_substr_regex_ = Some m.
Proof.
  intros H. destruct (is_substr_matches _ [] H) as [m0 M].
  now apply FullMatch_complete in M.
Qed.

Lemma is_substr_none p :
  FullMatch p is_substr_regex_ = None <-> ~ substr_shape p.
Proof.
  split.
  - intros F H. apply is_substr_complete in H. destruct H as [m F'].
    congruence.
  - intros H. destruct (FullMatch p is_substr_regex_) eqn:F; [|reflexivity].
    exfalso. eauto using is_substr_sound.
Qed.

(** The three shapes exclude one another. *)
Lemma suffix_not_prefix p s s' : suffix_shape p s -> ~ prefix_shape p s'.
Proof.
  intros H1 H2. apply suffix_shape_list in H1. apply prefix_shape_list in H2.
  destruct H1 as [h [E1 [N1 [W1 T1]]]]. destruct H2 as [t [E2 _]].
  rewrite E1 in E2.
  destruct (list_ascii_of_string s) as [|a w]; [congruence|].
  destruct T1 as [->| ->]; inversion E2; subst; discriminate.
Qed.

Lemma substr_not_prefix p s : substr_shape p -> ~ prefix_shape p s.
Proof.
  unfold substr_shape, all_word_or_space. intros H1 H2.
  apply prefix_shape_list in H2. destruct H2 as [t [E2 _]].
  rewrite E2 in H1. discriminate.
Qed.

Lemma substr_not_suffix p s : substr_shape p -> ~ suffix_shape p s.
Proof.
  unfold substr_shape, all_word_or_space. intros H1 H2.
  apply suffix_shape_list in H2. destruct H2 as [h [E2 _]].
  rewrite E2, !forallb_app in H1. simpl in H1.
  rewrite !andb_false_r in H1. discriminate.
Qed.

(** *** The tests in their order *)

Lemma recognize_prefix p s :
  prefix_shape p s -> recognize p = Some ("starts_with"%string, s).
Proof.
  intros H. apply starts_with_complete in H. destruct H as [m [F <-]].
  unfold recognize. now rewrite F.
Qed.

Lemma recognize_suffix p s :
  suffix_shape p s -> recognize p = Some ("ends_with"%string, s).
Proof.
  intros H. unfold recognize.
  destruct (FullMatch p starts_with_regex_) as [m|] eqn:F1.
  - apply starts_with_sound in F1. now destruct (suffix_not_prefix _ _ _ H F1).
  - apply ends_with_complete in H. destruct H as [m [F <-]]. now rewrite F.
Qed.

Lemma recognize_substr p :
  substr_shape p -> recognize p = Some ("is_substr"%string, p).
Proof.
  intros H. unfold recognize.
  destruct (FullMatch p starts_with_regex_) as [m|] eqn:F1.
  { apply starts_with_sound in F1. now destruct (substr_not_prefix _ _ H F1). }
  destruct (FullMatch p ends_with_regex_) as [m|] eqn:F2.
  { apply ends_with_sound in F2. now destruct (substr_not_suffix _ _ H F2). }
  apply is_substr_complete in H. destruct H as [m F]. now rewrite F.
Qed.

Lemma recognize_none p :
  (~ exists s, prefix_shape p s) -> (~ exists s, suffix_shape p s) ->
  ~ substr_shape p -> recognize p = None.
Proof.
  intros H1 H2 H3. unfold recognize.
  apply starts_with_none in H1. apply ends_with_none in H2.
  apply is_substr_none in H3. now rewrite H1, H2, H3.
Qed.

Lemma recognize_inv p op lit :
  recognize p = Some (op, lit) ->
  (op = "starts_with"%string /\ prefix_shape p lit)
  \/ (op = "ends_with"%string /\ suffix_shape p lit)
  \/ (op = "is_substr"%string /\ substr_shape p /\ lit = p).
Proof.
  unfold recognize.
  destruct (FullMatch p starts_with_regex_) as [m|] eqn:F1.
  { intros [= <- <-]. left. split; [reflexivity|].
    now apply starts_with_sound. }
  destruct (FullMatch p ends_with_regex_) as [m|] eqn:F2.
  { intros [= <- <-]. right. left. split; [reflexivity|].
    now apply ends_with_sound. }
  destruct (FullMatch p is_substr_regex_) as [m|] eqn:F3; [|discriminate].
  intros [= <- <-]. right. right. split; [reflexivity|].
  split; [|reflexivity]. eapply is_substr_sound; eauto.
Qed.

End Recognizers.

(* ================================================================= *)
(** ** Validation, extraction and construction *)

Section Construction.

Variable re2_ok : string -> bool.

Local Abbreviation Make_pattern := (Make_pattern re2_ok).
Local Abbreviation Make_node := (Make_node re2_ok).
Local Abbreviation new_holder := (new_RegexpMatchesHolder re2_ok).
Local Abbreviation TryOptimize := (TryOptimize re2_ok).

Lemma view_node node : node_view node.
Proof.
  destruct (children node) as [|c0 [|c1 [|c2 cs]]] eqn:E.
  1,2,4: apply WrongArity; rewrite E; simpl; lia.
  destruct c1 as [n t|l|f].
  - now apply (NoLiteral node c0 (Field n t)).
  - destruct (IsArrowStringLiteral (id (literal_return_type l))) eqn:S.
    + now apply (Valid node c0 l).
    + now apply (NoString node c0 l).
  - now apply (NoLiteral node c0 (Function f)).
Qed.

Lemma ValidateArguments_arity node :
  List.length (children node) <> 2 ->
  ValidateArguments node
  = Returns (Invalid ("'" ++ descriptor_name node
                          ++ "' function requires two parameters")).
Proof.
  intros H. unfold ValidateArguments.
  destruct (Nat.eqb_spec (List.length (children node)) 2); [contradiction|].
  reflexivity.
Qed.

Lemma ValidateArguments_no_literal node child0 child1 :
  children node = [child0; child1] ->
  dynamic_cast_LiteralNode child1 = None ->
  ValidateArguments node
  = Returns (Invalid ("'" ++ descriptor_name node
                          ++ "' function requires a literal as the second parameter")).
Proof.
  intros E H. unfold ValidateArguments. rewrite E. simpl. now rewrite H.
Qed.

Lemma ValidateArguments_no_string node child0 l :
  children node = [child0; Literal l] ->
  IsArrowStringLiteral (id (literal_return_type l)) = false ->
  ValidateArguments node
  = Returns (Invalid ("'" ++ descriptor_name node
                          ++ "' function requires a string literal as the second parameter")).
Proof.
  intros E H. unfold ValidateArguments. rewrite E. simpl. now rewrite H.
Qed.

Lemma ValidateArguments_valid node child0 l :
  children node = [child0; Literal l] ->
  IsArrowStringLiteral (id (literal_return_type l)) = true ->
  ValidateArguments node = Returns OK.
Proof.
  intros E H. unfold ValidateArguments. rewrite E. simpl. now rewrite H.
Qed.

(** [ValidateArguments] never raises: [at(1)] is reached with two
    children only. *)
Lemma ValidateArguments_returns node :
  exists st, ValidateArguments node = Returns st.
Proof.
  destruct (view_node node) as [H|c0 c1 E H|c0 l E H|c0 l E H].
  - rewrite ValidateArguments_arity by assumption. eauto.
  - erewrite ValidateArguments_no_literal by eassumption. eauto.
  - erewrite ValidateArguments_no_string by eassumption. eauto.
  - erewrite ValidateArguments_valid by eassumption. eauto.
Qed.

(** A status of [ValidateArguments] other than [OK] is one of its three
    messages. *)
Lemma ValidateArguments_invalid node st :
  ValidateArguments node = Returns st -> ok st = false -> InvalidShape node st.
Proof.
  unfold InvalidShape.
  destruct (view_node node) as [H|c0 c1 E H|c0 l E H|c0 l E H].
  - rewrite ValidateArguments_arity by assumption. intros [= <-] _. auto.
  - erewrite ValidateArguments_no_literal by eassumption.
    intros [= <-] _. auto.
  - erewrite ValidateArguments_no_string by eassumption.
    intros [= <-] _. auto.
  - erewrite ValidateArguments_valid by eassumption.
    intros [= <-]. discriminate.
Qed.

(** [GetPattern] on a node that fails validation hands the status on. *)
Lemma GetPattern_invalid node st :
  ValidateArguments node = Returns st -> ok st = false ->
  GetPattern node = Returns (Failed st).
Proof.
  intros V H. unfold GetPattern. rewrite V. simpl. now rewrite H.
Qed.

(** [GetPattern] on a validated node reads the holder of the literal. *)
Lemma GetPattern_valid node child0 l :
  children node = [child0; Literal l] ->
  IsArrowStringLiteral (id (literal_return_type l)) = true ->
  GetPattern node
  = (pattern <- get_string (holder l) ;; Returns (ValueOf pattern))%outcome.
Proof.
  intros E H. unfold GetPattern.
  rewrite (ValidateArguments_valid _ _ _ E H). simpl. now rewrite E.
Qed.

(** The string-based [Make] succeeds exactly on the patterns the engine
    accepts, and then stores the pattern as it is. *)
Lemma Make_pattern_accepted p h0 :
  re2_ok p = true -> Make_pattern p h0 = (OK, Some (new_holder p)).
Proof. intros H. unfold Make_pattern. simpl. now rewrite H. Qed.

Lemma Make_pattern_rejected p h0 :
  re2_ok p = false ->
  Make_pattern p h0
  = (Invalid ("Building RE2 pattern '" ++ p ++ "' failed"), h0).
Proof. intros H. unfold Make_pattern. simpl. now rewrite H. Qed.

Lemma Make_node_invalid node st h0 :
  ValidateArguments node = Returns st -> ok st = false ->
  Make_node node h0 = Returns (st, h0).
Proof.
  intros V H. unfold Make_node.
  now rewrite (GetPattern_invalid _ _ V H).
Qed.

Lemma Make_node_valid node child0 l p h0 :
  children node = [child0; Literal l] ->
  IsArrowStringLiteral (id (literal_return_type l)) = true ->
  holder l = HoldsString p ->
  Make_node node h0 = Returns (Make_pattern p h0).
Proof.
  intros E S Hp. unfold Make_node.
  rewrite (GetPattern_valid _ _ _ E S), Hp. reflexivity.
Qed.

Lemma Make_node_ill_typed node child0 l h0 :
  children node = [child0; Literal l] ->
  IsArrowStringLiteral (id (literal_return_type l)) = true ->
  (forall p, holder l <> HoldsString p) ->
  Make_node node h0 = Aborts bad_variant_access.
Proof.
  intros E S Hp. unfold Make_node.
  rewrite (GetPattern_valid _ _ _ E S).
  destruct (holder l) as [b|n|p]; [reflexivity|reflexivity|].
  now destruct (Hp p).
Qed.

(** When the node-based [Make] returns [OK], the node is a validated call
    on a string literal that the engine accepts, and the holder is the
    one built from that string. *)
Lemma Make_node_OK_inv node h0 st h :
  Make_node node h0 = Returns (st, h) -> ok st = true ->
  exists child0 l p,
    children node = [child0; Literal l]
    /\ IsArrowStringLiteral (id (literal_return_type l)) = true
    /\ holder l = HoldsString p
    /\ re2_ok p = true
    /\ st = OK /\ h = Some (new_holder p).
Proof.
  intros M Hok.
  destruct (view_node node) as [H|c0 c1 E H|c0 l E H|c0 l E H].
  1-3: exfalso.
  - rewrite (Make_node_invalid _ _ h0 (ValidateArguments_arity _ H) eq_refl)
      in M. inversion M; subst. discriminate.
  - rewrite (Make_node_invalid _ _ h0
               (ValidateArguments_no_literal _ _ _ E H) eq_refl) in M.
    inversion M; subst. discriminate.
  - rewrite (Make_node_invalid _ _ h0
               (ValidateArguments_no_string _ _ _ E H) eq_refl) in M.
    inversion M; subst. discriminate.
  - destruct (holder l) as [b|n|p] eqn:Hl.
    + rewrite (Make_node_ill_typed _ _ _ h0 E H) in M; [discriminate|].
      intros p. congruence.
    + rewrite (Make_node_ill_typed _ _ _ h0 E H) in M; [discriminate|].
      intros p. congruence.
    + rewrite (Make_node_valid _ _ _ _ h0 E H Hl) in M.
      destruct (re2_ok p) eqn:R.
      * rewrite (Make_pattern_accepted _ _ R) in M. inversion M; subst.
        exists c0, l, p. auto 10.
      * rewrite (Make_pattern_rejected _ _ R) in M. inversion M; subst.
        discriminate.
Qed.

End Construction.

(* ================================================================= *)
(** ** The optimizer *)

Import Recognizers.

Section Optimizer.

Variable re2_ok : string -> bool.

Local Abbreviation Make_pattern := (Make_pattern re2_ok).
Local Abbreviation Make_node := (Make_node re2_ok).
Local Abbreviation new_holder := (new_RegexpMatchesHolder re2_ok).
Local Abbreviation TryOptimize := (TryOptimize re2_ok).

(** Without a holder the node comes back as it is. *)
Lemma TryOptimize_not_made node st h :
  Make_node node None = Returns (st, h) -> ok st = false ->
  TryOptimize node = Returns node.
Proof.
  intros M H. unfold TryOptimize. rewrite M. simpl. now rewrite H.
Qed.

(** With a holder the three tests decide, and neither [at(0)], [at(1)]
    nor the holder pointer can fail. *)
Lemma TryOptimize_made node child0 child1 h :
  children node = [child0; child1] ->
  Make_node node None = Returns (OK, Some h) ->
  TryOptimize node
  = Returns match recognize (pattern_ h) with
            | Some (op, lit) => replacement node child0 child1 op lit
            | None => node
            end.
Proof.
  intros E M. unfold TryOptimize, recognize. rewrite M. simpl. rewrite E.
  simpl.
  destruct (FullMatch (pattern_ h) starts_with_regex_); [reflexivity|].
  destruct (FullMatch (pattern_ h) ends_with_regex_); [reflexivity|].
  destruct (FullMatch (pattern_ h) is_substr_regex_); reflexivity.
Qed.

Lemma TryOptimize_aborts node f :
  Make_node node None = Aborts f -> TryOptimize node = Aborts f.
Proof. intros M. unfold TryOptimize. now rewrite M. Qed.

(** What [TryOptimize] does on a validated call whose literal holds the
    string [p]. *)
Lemma TryOptimize_valid node child0 l p :
  children node = [child0; Literal l] ->
  IsArrowStringLiteral (id (literal_return_type l)) = true ->
  holder l = HoldsString p ->
  TryOptimize node
  = Returns (if re2_ok p
             then match recognize p with
                  | Some (op, lit) =>
                      replacement node child0 (Literal l) op lit
                  | None => node
                  end
             else node).
Proof.
  intros E S Hp. pose proof (Make_node_valid re2_ok _ _ _ _ None E S Hp) as M.
  destruct (re2_ok p) eqn:R.
  - rewrite (Make_pattern_accepted re2_ok _ None R) in M.
    now rewrite (TryOptimize_made _ _ _ _ E M).
  - rewrite (Make_pattern_rejected re2_ok _ None R) in M.
    now rewrite (TryOptimize_not_made _ _ _ M eq_refl).
Qed.

(** A result of [TryOptimize] is the node itself or the replacement that
    the first matching recognizer asks for. *)
Lemma TryOptimize_inv node node' :
  TryOptimize node = Returns node' ->
  node' = node
  \/ exists child0 l p op lit,
       children node = [child0; Literal l]
       /\ IsArrowStringLiteral (id (literal_return_type l)) = true
       /\ holder l = HoldsString p
       /\ re2_ok p = true
       /\ recognize p = Some (op, lit)
       /\ node' = replacement node child0 (Literal l) op lit.
Proof.
  intros T.
  destruct (Make_node node None) as [[st h]|f] eqn:M.
  2: { rewrite (TryOptimize_aborts _ _ M) in T. discriminate. }
  destruct (ok st) eqn:Hok.
  2: { rewrite (TryOptimize_not_made _ _ _ M Hok) in T.
       left. now inversion T. }
  destruct (Make_node_OK_inv re2_ok _ _ _ _ M Hok)
    as [c0 [l [p [E [S [Hp [R [-> ->]]]]]]]].
  rewrite (TryOptimize_made _ _ _ _ E M) in T. simpl in T.
  destruct (recognize p) as [[op lit]|] eqn:Rec.
  - right. exists c0, l, p, op, lit. inversion T. auto 10.
  - left. now inversion T.
Qed.

(** On a call whose literal is plain text the optimizer answers
    [is_substr] when the engine accepts the text, whatever the call names. *)
Lemma TryOptimize_plain name child0 type lit nul ret :
  IsArrowStringLiteral (id type) = true ->
  substr_shape lit ->
  TryOptimize (mkFunctionNode name
                 [child0; Literal (mkLiteralNode type (HoldsString lit) nul)]
                 ret)
  = Returns (if re2_ok lit
             then mkFunctionNode "is_substr"
                    [child0; Literal (mkLiteralNode type (HoldsString lit) false)]
                    ret
             else mkFunctionNode name
                    [child0; Literal (mkLiteralNode type (HoldsString lit) nul)]
                    ret).
Proof.
  intros S H.
  rewrite (TryOptimize_valid
             (mkFunctionNode name
                [child0; Literal (mkLiteralNode type (HoldsString lit) nul)]
                ret)
             child0 (mkLiteralNode type (HoldsString lit) nul) lit
             eq_refl S eq_refl).
  now rewrite (recognize_substr _ H).
Qed.

(** Failing validation makes the node-based [Make] fail with one of the
    three messages of [ValidateArguments], leaving [*holder] alone. *)
Lemma Make_node_invalid_shape node h0 :
  (List.length (children node) <> 2
   \/ (exists child0 child1, children node = [child0; child1]
         /\ dynamic_cast_LiteralNode child1 = None)
   \/ (exists child0 l, children node = [child0; Literal l]
         /\ IsArrowStringLiteral (id (literal_return_type l)) = false)) ->
  exists st, Make_node node h0 = Returns (st, h0) /\ InvalidShape node st.
Proof.
  unfold InvalidShape. intros [H|[[c0 [c1 [E H]]]|[c0 [l [E H]]]]].
  - eexists. split; [|left; reflexivity].
    exact (Make_node_invalid re2_ok _ _ h0
             (ValidateArguments_arity _ H) eq_refl).
  - eexists. split; [|right; left; reflexivity].
    exact (Make_node_invalid re2_ok _ _ h0
             (ValidateArguments_no_literal _ _ _ E H) eq_refl).
  - eexists. split; [|right; right; reflexivity].
    exact (Make_node_invalid re2_ok _ _ h0
             (ValidateArguments_no_string _ _ _ E H) eq_refl).
Qed.

(** The message of a rejected pattern is none of the validation messages. *)
Lemma InvalidPattern_not_shape node p st :
  InvalidPattern p st -> ~ InvalidShape node st.
Proof.
  unfold InvalidPattern, InvalidShape. intros -> [H|[H|H]];
    simpl in H; discriminate.
Qed.

(** C4: the node-based [Make] fails with an Invalid-Shape status exactly
    when the node has not two children, or its second child is no literal,
    or is a literal of a type that is neither [STRING] nor [BINARY]; and on
    a node with two children whose second child is a string-like literal
    holding a pattern the engine accepts, it succeeds with a holder whose
    stored pattern is the value of the literal. *)
Theorem Make_node_shape_and_success node h0 :
  ((exists st h, Make_node node h0 = Returns (st, h) /\ InvalidShape node st)
   <-> (List.length (children node) <> 2
        \/ (exists child1, nth_error (children node) 1 = Some child1
              /\ dynamic_cast_LiteralNode child1 = None)
        \/ (exists l, nth_error (children node) 1 = Some (Literal l)
              /\ IsArrowStringLiteral (id (literal_return_type l)) = false)))
  /\ (forall child0 l p,
        children node = [child0; Literal l] ->
        IsArrowStringLiteral (id (literal_return_type l)) = true ->
        holder l = HoldsString p ->
        re2_ok p = true ->
        exists h, Make_node node h0 = Returns (OK, Some h) /\ pattern_ h = p).
Proof.
  split.
  - destruct (view_node node) as [H|c0 c1 E H|c0 l E H|c0 l E H].
    + split; [auto|]. intros _.
      destruct (Make_node_invalid_shape node h0) as [st [M I]]; eauto.
    + split.
      * intros _. right. left. exists c1. rewrite E. auto.
      * intros _.
        destruct (Make_node_invalid_shape node h0) as [st [M I]]; eauto 8.
    + split.
      * intros _. right. right. exists l. rewrite E. auto.
      * intros _.
        destruct (Make_node_invalid_shape node h0) as [st [M I]]; eauto 8.
    + split.
      * intros [st [h [M I]]]. exfalso.
        destruct (holder l) as [b|n|p] eqn:Hl.
        1,2: rewrite (Make_node_ill_typed re2_ok _ _ _ h0 E H) in M;
          [discriminate|intros p; congruence].
        rewrite (Make_node_valid re2_ok _ _ _ _ h0 E H Hl) in M.
        destruct (re2_ok p) eqn:R.
        -- rewrite (Make_pattern_accepted re2_ok _ _ R) in M.
           inversion M; subst. destruct I as [I|[I|I]]; discriminate.
        -- rewrite (Make_pattern_rejected re2_ok _ _ R) in M.
           inversion M; subst.
           now apply (InvalidPattern_not_shape node p _ eq_refl).
      * intros [Hn|[[c1 [N D]]|[l' [N S]]]]; exfalso.
        -- rewrite E in Hn. simpl in Hn. lia.
        -- rewrite E in N. simpl in N. inversion N; subst. discriminate.
        -- rewrite E in N. simpl in N. inversion N; subst. congruence.
  - intros c0 l p E S Hp R. exists (new_holder p).
    rewrite (Make_node_valid re2_ok _ _ _ _ h0 E S Hp).
    now rewrite (Make_pattern_accepted re2_ok _ _ R).
Qed.

(** C1 (amended): on every call node whose literal operand, when its
    declared type is string-like, holds a string, [TryOptimize] returns a
    node and holder construction returns a status; when construction fails,
    which it does with a validation message or with the message of a
    rejected pattern, or when the pattern text has none of the three
    shapes, the node returned is the input node. *)
Theorem TryOptimize_total_on_well_typed node :
  operand_well_typed node ->
  (exists node', TryOptimize node = Returns node')
  /\ (exists made, Make_node node None = Returns made)
  /\ (forall st h,
        Make_node node None = Returns (st, h) -> ok st = false ->
        (InvalidShape node st \/ exists p, InvalidPattern p st)
        /\ TryOptimize node = Returns node)
  /\ (forall h,
        Make_node node None = Returns (OK, Some h) ->
        (~ exists s, prefix_shape (pattern_ h) s) ->
        (~ exists s, suffix_shape (pattern_ h) s) ->
        ~ substr_shape (pattern_ h) ->
        TryOptimize node = Returns node).
Proof.
  intros W.
  assert (Hmade : exists made, Make_node node None = Returns made).
  { destruct (view_node node) as [H|c0 c1 E H|c0 l E H|c0 l E H].
    1-3: destruct (Make_node_invalid_shape node None) as [st [M _]];
      eauto 8.
    destruct (W l) as [p Hp]; [now rewrite E|exact H|].
    rewrite (Make_node_valid re2_ok _ _ _ _ None E H Hp). eauto. }
  split; [|split; [exact Hmade|split]].
  - destruct Hmade as [[st h] M]. destruct (ok st) eqn:Hok.
    + destruct (Make_node_OK_inv re2_ok _ _ _ _ M Hok)
        as [c0 [l [p [E [S [Hp [R [-> ->]]]]]]]].
      rewrite (TryOptimize_made _ _ _ _ E M). eauto.
    + rewrite (TryOptimize_not_made _ _ _ M Hok). eauto.
  - intros st h M Hok. split; [|exact (TryOptimize_not_made _ _ _ M Hok)].
    destruct (view_node node) as [H|c0 c1 E H|c0 l E H|c0 l E H].
    1-3: destruct (Make_node_invalid_shape node None) as [st' [M' I]];
      [eauto 8|rewrite M' in M; inversion M; subst; now left].
    destruct (W l) as [p Hp]; [now rewrite E|exact H|].
    rewrite (Make_node_valid re2_ok _ _ _ _ None E H Hp) in M.
    destruct (re2_ok p) eqn:R.
    + rewrite (Make_pattern_accepted re2_ok _ _ R) in M.
      inversion M; subst. discriminate.
    + rewrite (Make_pattern_rejected re2_ok _ _ R) in M.
      inversion M; subst. right. now exists p.
  - intros h M H1 H2 H3.
    destruct (Make_node_OK_inv re2_ok _ _ _ _ M eq_refl)
      as [c0 [l [p [E _]]]].
    rewrite (TryOptimize_made _ _ _ _ E M).
    now rewrite (recognize_none _ H1 H2 H3).
Qed.

(** With a holder and a recognizer that matches, the replacement is
    returned. *)
Lemma TryOptimize_recognized node h op lit :
  Make_node node None = Returns (OK, Some h) ->
  recognize (pattern_ h) = Some (op, lit) ->
  exists child0 child1,
    children node = [child0; child1]
    /\ TryOptimize node = Returns (replacement node child0 child1 op lit).
Proof.
  intros M R.
  destruct (Make_node_OK_inv re2_ok _ _ _ _ M eq_refl) as [c0 [l [p [E _]]]].
  exists c0, (Literal l). split; [exact E|].
  now rewrite (TryOptimize_made _ _ _ _ E M), R.
Qed.

Lemma TryOptimize_unrecognized node h :
  Make_node node None = Returns (OK, Some h) ->
  recognize (pattern_ h) = None ->
  TryOptimize node = Returns node.
Proof.
  intros M R.
  destruct (Make_node_OK_inv re2_ok _ _ _ _ M eq_refl) as [c0 [l [p [E _]]]].
  now rewrite (TryOptimize_made _ _ _ _ E M), R.
Qed.

(** C5: on a node for which the holder was built and whose pattern text is
    the anchor-start marker, then one or more word or whitespace characters
    [s], then optionally the wildcard marker, [TryOptimize] returns the
    call of [starts_with] on the original first child and a new literal
    holding [s]. *)
Theorem TryOptimize_prefix node h s tail :
  Make_node node None = Returns (OK, Some h) ->
  pattern_ h = "^" ++ s ++ tail ->
  s <> "" ->
  all_word_or_space s = true ->
  tail = "" \/ tail = wildcard_marker ->
  exists child0 child1,
    children node = [child0; child1]
    /\ TryOptimize node
       = Returns (mkFunctionNode "starts_with"
                    [child0;
                     Literal (mkLiteralNode (node_return_type child1)
                                            (HoldsString s) false)]
                    (return_type node)).
Proof.
  intros M E Hne Hw Ht.
  apply (TryOptimize_recognized node h "starts_with" s M).
  apply recognize_prefix. exists tail. auto.
Qed.

(** C6: on a node for which the holder was built and whose pattern text is
    optionally the wildcard marker, then one or more word or whitespace
    characters [s], then the anchor-end marker, [TryOptimize] returns the
    call of [ends_with] on the original first child and a new literal
    holding [s]; the literal is [s] with and without the leading marker. *)
Theorem TryOptimize_suffix node h head s :
  Make_node node None = Returns (OK, Some h) ->
  pattern_ h = head ++ s ++ "$" ->
  s <> "" ->
  all_word_or_space s = true ->
  head = "" \/ head = wildcard_marker ->
  exists child0 child1,
    children node = [child0; child1]
    /\ TryOptimize node
       = Returns (mkFunctionNode "ends_with"
                    [child0;
                     Literal (mkLiteralNode (node_return_type child1)
                                            (HoldsString s) false)]
                    (return_type node)).
Proof.
  intros M E Hne Hw Hh.
  apply (TryOptimize_recognized node h "ends_with" s M).
  apply recognize_suffix. exists head. auto.
Qed.

(** C7: on a node for which the holder was built and whose pattern text
    consists of word or whitespace characters only, the empty text
    included, [TryOptimize] returns the call of [is_substr] on the original
    first child and a new literal holding the pattern text as it is. *)
Theorem TryOptimize_substr node h :
  Make_node node None = Returns (OK, Some h) ->
  all_word_or_space (pattern_ h) = true ->
  exists child0 child1,
    children node = [child0; child1]
    /\ TryOptimize node
       = Returns (mkFunctionNode "is_substr"
                    [child0;
                     Literal (mkLiteralNode (node_return_type child1)
                                            (HoldsString (pattern_ h)) false)]
                    (return_type node)).
Proof.
  intros M Hw.
  apply (TryOptimize_recognized node h "is_substr" (pattern_ h) M).
  now apply recognize_substr.
Qed.

(** C8: the recognizers are tried on the whole pattern text in the order
    prefix, suffix, plain: the prefix shape gives [starts_with]; failing
    it the suffix shape gives [ends_with]; failing both the plain shape
    gives [is_substr]; failing all three the node comes back unchanged, as
    it does for the pattern texts [hello.*] and [h.llo]. *)
Theorem TryOptimize_first_match_whole_text node h :
  Make_node node None = Returns (OK, Some h) ->
  exists child0 child1,
    children node = [child0; child1]
    /\ (forall s, prefix_shape (pattern_ h) s ->
          TryOptimize node
          = Returns (replacement node child0 child1 "starts_with" s))
    /\ (forall s, (~ exists s', prefix_shape (pattern_ h) s') ->
          suffix_shape (pattern_ h) s ->
          TryOptimize node
          = Returns (replacement node child0 child1 "ends_with" s))
    /\ ((~ exists s', prefix_shape (pattern_ h) s') ->
        (~ exists s', suffix_shape (pattern_ h) s') ->
        substr_shape (pattern_ h) ->
        TryOptimize node
        = Returns (replacement node child0 child1 "is_substr" (pattern_ h)))
    /\ ((~ exists s', prefix_shape (pattern_ h) s') ->
        (~ exists s', suffix_shape (pattern_ h) s') ->
        ~ substr_shape (pattern_ h) ->
        TryOptimize node = Returns node)
    /\ (pattern_ h = "hello.*" \/ pattern_ h = "h.llo" ->
        TryOptimize node = Returns node).
Proof.
  intros M.
  destruct (Make_node_OK_inv re2_ok _ _ _ _ M eq_refl) as [c0 [l [p [E _]]]].
  exists c0, (Literal l). split; [exact E|].
  rewrite (TryOptimize_made _ _ _ _ E M).
  split; [|split; [|split; [|split]]].
  - intros s H. now rewrite (recognize_prefix _ _ H).
  - intros s _ H. now rewrite (recognize_suffix _ _ H).
  - intros _ _ H. now rewrite (recognize_substr _ H).
  - intros H1 H2 H3. now rewrite (recognize_none _ H1 H2 H3).
  - intros [-> | ->]; reflexivity.
Qed.

(** C9: when [TryOptimize] rewrites, the result type of the new node is
    that of the original node, its first child is the original first
    child, and its second child is a literal that has the declared type of
    the original second child and is not null. *)
Theorem TryOptimize_rewrite_types node h node' :
  Make_node node None = Returns (OK, Some h) ->
  (exists s, prefix_shape (pattern_ h) s)
  \/ (exists s, suffix_shape (pattern_ h) s)
  \/ substr_shape (pattern_ h) ->
  TryOptimize node = Returns node' ->
  return_type node' = return_type node
  /\ exists child0 child1 l',
       children node = [child0; child1]
       /\ children node' = [child0; Literal l']
       /\ literal_return_type l' = node_return_type child1
       /\ is_null l' = false.
Proof.
  intros M Hshape T.
  assert (R : exists op lit, recognize (pattern_ h) = Some (op, lit)).
  { destruct Hshape as [[s H]|[[s H]|H]].
    - rewrite (recognize_prefix _ _ H). eauto.
    - rewrite (recognize_suffix _ _ H). eauto.
    - rewrite (recognize_substr _ H). eauto. }
  destruct R as [op [lit R]].
  destruct (TryOptimize_recognized _ _ _ _ M R) as [c0 [c1 [E T']]].
  rewrite T' in T. inversion T; subst. split; [reflexivity|].
  exists c0, c1. eexists. split; [exact E|]. simpl. auto.
Qed.

(** The literal of a replacement is plain text, whichever recognizer
    produced it. *)
Lemma recognized_literal_plain p op lit :
  recognize p = Some (op, lit) -> substr_shape lit.
Proof.
  intros R. destruct (recognize_inv _ _ _ R) as [[_ H]|[[_ H]|[_ [H ->]]]].
  - destruct H as [tail [_ [_ [Hw _]]]]. exact Hw.
  - destruct H as [head [_ [_ [Hw _]]]]. exact Hw.
  - exact H.
Qed.

(** A call on a plain-text literal is stable after one more application. *)
Lemma TryOptimize_plain_stable name child0 type lit nul ret :
  IsArrowStringLiteral (id type) = true ->
  substr_shape lit ->
  exists n2,
    TryOptimize (mkFunctionNode name
                   [child0; Literal (mkLiteralNode type (HoldsString lit) nul)]
                   ret) = Returns n2
    /\ TryOptimize n2 = Returns n2.
Proof.
  intros S H. rewrite (TryOptimize_plain _ _ _ _ _ _ S H).
  destruct (re2_ok lit) eqn:R; eexists; (split; [reflexivity|]);
    now rewrite (TryOptimize_plain _ _ _ _ _ _ S H), R.
Qed.

(** C2 (amended): applying [TryOptimize] to its own output returns that
    output unchanged when the output is the input node or names
    [is_substr]; in every case one more application reaches a node that
    [TryOptimize] returns unchanged. *)
Theorem TryOptimize_stable_after_two node n1 :
  TryOptimize node = Returns n1 ->
  (n1 = node \/ descriptor_name n1 = "is_substr" ->
   TryOptimize n1 = Returns n1)
  /\ (exists n2, TryOptimize n1 = Returns n2 /\ TryOptimize n2 = Returns n2).
Proof.
  intros T.
  destruct (TryOptimize_inv _ _ T)
    as [->|[c0 [l [p [op [lit [E [S [Hp [R [Rec ->]]]]]]]]]]].
  { split; [intros _; exact T|]. exists node. now split. }
  pose proof (recognized_literal_plain _ _ _ Rec) as Hplain.
  unfold replacement in *. simpl in *.
  split.
  - intros [Heq|Hname]; [congruence|]. subst op.
    destruct (recognize_inv _ _ _ Rec) as [[C _]|[[C _]|[_ [_ ->]]]];
      [discriminate|discriminate|].
    now rewrite (TryOptimize_plain _ _ _ _ _ _ S Hplain), R.
  - now apply TryOptimize_plain_stable.
Qed.

(** C10: [TryOptimize] does not look at the name of the call: on two
    children of which the second is a string-like literal whose value the
    engine accepts and that has one of the three shapes, the same
    replacement is returned under every name, also under the names
    [TryOptimize] itself gives out, so that [starts_with] on the literal
    [hello] becomes [is_substr]. *)
Theorem TryOptimize_ignores_operation_name name name' child0 l p ret :
  IsArrowStringLiteral (id (literal_return_type l)) = true ->
  holder l = HoldsString p ->
  re2_ok p = true ->
  (exists s, prefix_shape p s) \/ (exists s, suffix_shape p s)
  \/ substr_shape p ->
  (exists op lit,
     (op = "starts_with" \/ op = "ends_with" \/ op = "is_substr")
     /\ TryOptimize (mkFunctionNode name [child0; Literal l] ret)
        = Returns (mkFunctionNode op
                     [child0;
                      Literal (mkLiteralNode (literal_return_type l)
                                             (HoldsString lit) false)]
                     ret)
     /\ TryOptimize (mkFunctionNode name' [child0; Literal l] ret)
        = TryOptimize (mkFunctionNode name [child0; Literal l] ret))
  /\ (p = "hello" ->
      TryOptimize (mkFunctionNode "starts_with" [child0; Literal l] ret)
      = Returns (mkFunctionNode "is_substr"
                   [child0;
                    Literal (mkLiteralNode (literal_return_type l)
                                           (HoldsString "hello") false)]
                   ret)).
Proof.
  intros S Hp R Hshape.
  assert (T : forall n,
             TryOptimize (mkFunctionNode n [child0; Literal l] ret)
             = Returns match recognize p with
                       | Some (op, lit) =>
                           mkFunctionNode op
                             [child0;
                              Literal (mkLiteralNode (literal_return_type l)
                                                     (HoldsString lit) false)]
                             ret
                       | None => mkFunctionNode n [child0; Literal l] ret
                       end).
  { intros n.
    rewrite (TryOptimize_valid (mkFunctionNode n [child0; Literal l] ret)
               child0 l p eq_refl S Hp), R.
    now destruct (recognize p) as [[op lit]|]. }
  split.
  - assert (Rec : exists op lit, recognize p = Some (op, lit)).
    { destruct Hshape as [[s H]|[[s H]|H]].
      - rewrite (recognize_prefix _ _ H). eauto.
      - rewrite (recognize_suffix _ _ H). eauto.
      - rewrite (recognize_substr _ H). eauto. }
    destruct Rec as [op [lit Rec]]. exists op, lit.
    rewrite !T, Rec. split; [|now split].
    destruct (recognize_inv _ _ _ Rec) as [[C _]|[[C _]|[C _]]]; auto.
  - intros ->. now rewrite T.
Qed.

End Optimizer.

(* ================================================================= *)
(** ** The LIKE-flavoured constructor *)

Section SQLLike.

Variable re2_ok : string -> bool.
Variable SqlLikePatternToPcre : string -> Status * string.

Local Abbreviation SQLLike_Make_pattern :=
  (SQLLike_Make_pattern re2_ok SqlLikePatternToPcre).
Local Abbreviation SQLLike_Make_node :=
  (SQLLike_Make_node re2_ok SqlLikePatternToPcre).

(** C3: evaluation of the code where the claim fails.  When the
    translation succeeds and the engine rejects the translated pattern, the
    string-based [SQLLikeHolder::Make] returns [OK] with a null holder,
    while [RegexpMatchesHolder::Make] on the same translated pattern
    returns the Invalid-Pattern status; the node-based
    [SQLLikeHolder::Make] hands the [OK] on. *)
Theorem SQLLike_Make_drops_compile_failure sql_pattern pcre_pattern h0 :
  SqlLikePatternToPcre sql_pattern = (OK, pcre_pattern) ->
  re2_ok pcre_pattern = false ->
  SQLLike_Make_pattern sql_pattern h0 = (OK, None)
  /\ InvalidPattern pcre_pattern (fst (Make_pattern re2_ok pcre_pattern None))
  /\ (forall node child0 l,
        children node = [child0; Literal l] ->
        IsArrowStringLiteral (id (literal_return_type l)) = true ->
        holder l = HoldsString sql_pattern ->
        SQLLike_Make_node node h0 = Returns (OK, None)).
Proof.
  intros Tr R.
  assert (M : SQLLike_Make_pattern sql_pattern h0 = (OK, None)).
  { unfold SQLLike_Make_pattern. rewrite Tr. simpl.
    now rewrite (Make_pattern_rejected re2_ok _ None R). }
  split; [exact M|split].
  - now rewrite (Make_pattern_rejected re2_ok _ None R).
  - intros node c0 l E S Hp. unfold SQLLike_Make_node.
    rewrite (GetPattern_valid _ _ _ E S), Hp. simpl. now rewrite M.
Qed.

End SQLLike.

(* ================================================================= *)
(** ** The properties on examples *)

Section Examples.

Local Abbreviation TryOptimize := (TryOptimize sample_re2_ok).
Local Abbreviation Make_node := (Make_node sample_re2_ok).
Local Abbreviation new_holder := (new_RegexpMatchesHolder sample_re2_ok).

Lemma call_on_x_well_typed name pattern :
  operand_well_typed (call_on_x name pattern).
Proof.
  intros l H. simpl in H. inversion H; subst. intros _.
  exists pattern. reflexivity.
Defined.

(** C1, as stated, fails: a literal declared a string and holding a number
    passes validation, and extracting its string raises. *)
Lemma TryOptimize_raises_on_ill_typed_literal :
  ValidateArguments ill_typed_call = Returns OK
  /\ TryOptimize ill_typed_call = Aborts bad_variant_access
  /\ ~ exists node', TryOptimize ill_typed_call = Returns node'.
Proof.
  split; [reflexivity|]. split; [reflexivity|].
  intros [node' H]. discriminate H.
Qed.

Lemma TryOptimize_total_on_well_typed_witness :
  operand_well_typed (call_on_x "like" "h.llo")
  /\ exists node', TryOptimize (call_on_x "like" "h.llo") = Returns node'.
Proof.
  split; [apply call_on_x_well_typed|].
  apply (TryOptimize_total_on_well_typed sample_re2_ok
           (call_on_x "like" "h.llo")).
  apply call_on_x_well_typed.
Defined.

(** C2, as stated, fails: the output for [^hello] is rewritten again. *)
Lemma TryOptimize_not_idempotent :
  TryOptimize (call_on_x "like" "^hello")
  = Returns (call_on_x "starts_with" "hello")
  /\ TryOptimize (call_on_x "starts_with" "hello")
     = Returns (call_on_x "is_substr" "hello")
  /\ call_on_x "is_substr" "hello" <> call_on_x "starts_with" "hello".
Proof.
  split; [reflexivity|]. split; [reflexivity|]. discriminate.
Qed.

Lemma TryOptimize_stable_after_two_witness :
  TryOptimize (call_on_x "like" "^hello")
  = Returns (call_on_x "starts_with" "hello")
  /\ exists n2,
       TryOptimize (call_on_x "starts_with" "hello") = Returns n2
       /\ TryOptimize n2 = Returns n2.
Proof.
  split; [reflexivity|].
  apply (TryOptimize_stable_after_two sample_re2_ok
           (call_on_x "like" "^hello") (call_on_x "starts_with" "hello")).
  reflexivity.
Defined.

Lemma SQLLike_Make_drops_compile_failure_witness :
  sample_SqlLikePatternToPcre invalid_utf8 = (OK, invalid_utf8)
  /\ sample_re2_ok invalid_utf8 = false
  /\ SQLLike_Make_pattern sample_re2_ok sample_SqlLikePatternToPcre
       invalid_utf8 None = (OK, None).
Proof.
  split; [reflexivity|]. split; [reflexivity|].
  apply (SQLLike_Make_drops_compile_failure sample_re2_ok
           sample_SqlLikePatternToPcre invalid_utf8 invalid_utf8 None);
    reflexivity.
Defined.

Lemma Make_node_shape_and_success_witness :
  sample_re2_ok "^hello" = true
  /\ exists h,
       Make_node (call_on_x "like" "^hello") None = Returns (OK, Some h)
       /\ pattern_ h = "^hello".
Proof.
  split; [reflexivity|].
  apply (proj2 (Make_node_shape_and_success sample_re2_ok
                  (call_on_x "like" "^hello") None)
               (Field "x" utf8)
               (mkLiteralNode utf8 (HoldsString "^hello") false) "^hello");
    reflexivity.
Defined.

Lemma TryOptimize_prefix_witness :
  Make_node (call_on_x "like" "^hello") None
  = Returns (OK, Some (new_holder "^hello"))
  /\ "hello" <> ""
  /\ all_word_or_space "hello" = true
  /\ exists child0 child1,
       children (call_on_x "like" "^hello") = [child0; child1]
       /\ TryOptimize (call_on_x "like" "^hello")
          = Returns (mkFunctionNode "starts_with"
                       [child0;
                        Literal (mkLiteralNode (node_return_type child1)
                                               (HoldsString "hello") false)]
                       (return_type (call_on_x "like" "^hello"))).
Proof.
  split; [reflexivity|]. split; [discriminate|]. split; [reflexivity|].
  apply (TryOptimize_prefix sample_re2_ok (call_on_x "like" "^hello")
           (new_holder "^hello") "hello" "");
    [reflexivity|reflexivity|discriminate|reflexivity|left; reflexivity].
Defined.

Lemma TryOptimize_suffix_witness :
  Make_node (call_on_x "like" ".*world$") None
  = Returns (OK, Some (new_holder ".*world$"))
  /\ "world" <> ""
  /\ all_word_or_space "world" = true
  /\ exists child0 child1,
       children (call_on_x "like" ".*world$") = [child0; child1]
       /\ TryOptimize (call_on_x "like" ".*world$")
          = Returns (mkFunctionNode "ends_with"
                       [child0;
                        Literal (mkLiteralNode (node_return_type child1)
                                               (HoldsString "world") false)]
                       (return_type (call_on_x "like" ".*world$"))).
Proof.
  split; [reflexivity|]. split; [discriminate|]. split; [reflexivity|].
  apply (TryOptimize_suffix sample_re2_ok (call_on_x "like" ".*world$")
           (new_holder ".*world$") wildcard_marker "world");
    [reflexivity|reflexivity|discriminate|reflexivity|right; reflexivity].
Defined.

Lemma TryOptimize_substr_witness :
  Make_node (call_on_x "like" "hello world") None
  = Returns (OK, Some (new_holder "hello world"))
  /\ all_word_or_space "hello world" = true
  /\ exists child0 child1,
       children (call_on_x "like" "hello world") = [child0; child1]
       /\ TryOptimize (call_on_x "like" "hello world")
          = Returns (mkFunctionNode "is_substr"
                       [child0;
                        Literal (mkLiteralNode (node_return_type child1)
                                               (HoldsString "hello world")
                                               false)]
                       (return_type (call_on_x "like" "hello world"))).
Proof.
  split; [reflexivity|]. split; [reflexivity|].
  apply (TryOptimize_substr sample_re2_ok (call_on_x "like" "hello world")
           (new_holder "hello world")); reflexivity.
Defined.

Lemma TryOptimize_first_match_whole_text_witness :
  Make_node (call_on_x "like" "hello.*") None
  = Returns (OK, Some (new_holder "hello.*"))
  /\ TryOptimize (call_on_x "like" "hello.*")
     = Returns (call_on_x "like" "hello.*").
Proof.
  split; [reflexivity|].
  destruct (TryOptimize_first_match_whole_text sample_re2_ok
              (call_on_x "like" "hello.*") (new_holder "hello.*") eq_refl)
    as [child0 [child1 [_ [_ [_ [_ [_ H]]]]]]].
  apply H. left. reflexivity.
Defined.

Lemma TryOptimize_rewrite_types_witness :
  Make_node (call_on_x "like" "^hello") None
  = Returns (OK, Some (new_holder "^hello"))
  /\ prefix_shape "^hello" "hello"
  /\ TryOptimize (call_on_x "like" "^hello")
     = Returns (call_on_x "starts_with" "hello")
  /\ return_type (call_on_x "starts_with" "hello")
     = return_type (call_on_x "like" "^hello").
Proof.
  assert (P : prefix_shape "^hello" "hello").
  { exists "". split; [reflexivity|]. split; [discriminate|].
    split; [reflexivity|left; reflexivity]. }
  split; [reflexivity|]. split; [exact P|]. split; [reflexivity|].
  apply (TryOptimize_rewrite_types sample_re2_ok (call_on_x "like" "^hello")
           (new_holder "^hello") (call_on_x "starts_with" "hello"));
    [reflexivity|left; exists "hello"; exact P|reflexivity].
Defined.

Lemma TryOptimize_ignores_operation_name_witness :
  sample_re2_ok "hello" = true
  /\ substr_shape "hello"
  /\ TryOptimize (call_on_x "starts_with" "hello")
     = Returns (call_on_x "is_substr" "hello").
Proof.
  split; [reflexivity|]. split; [reflexivity|].
  apply (proj2 (TryOptimize_ignores_operation_name sample_re2_ok
                  "starts_with" "like" (Field "x" utf8)
                  (mkLiteralNode utf8 (HoldsString "hello") false)
                  "hello" boolean eq_refl eq_refl eq_refl
                  (or_intror (or_intror eq_refl)))).
  reflexivity.
Defined.

(** The plain shape includes the empty pattern. *)
Example empty_pattern_is_plain :
  TryOptimize (call_on_x "like" "") = Returns (call_on_x "is_substr" "").
Proof. reflexivity. Qed.

(** The wildcard marker is optional in the prefix shape. *)
Example optional_marker_after_prefix :
  TryOptimize (call_on_x "like" "^hello.*")
  = Returns (call_on_x "starts_with" "hello").
Proof. reflexivity. Qed.

(** A single wildcard character fits no shape. *)
Example single_wildcard_fits_no_shape :
  TryOptimize (call_on_x "like" "h.llo") = Returns (call_on_x "like" "h.llo").
Proof. reflexivity. Qed.

(** A call with one argument is left alone. *)
Example one_argument_left_alone :
  TryOptimize (mkFunctionNode "like" [Field "x" utf8] boolean)
  = Returns (mkFunctionNode "like" [Field "x" utf8] boolean).
Proof. reflexivity. Qed.

End Examples.

(* ================================================================= *)
(** ** Validation and extraction, case by case *)

Section Validation.

Lemma append_inv_head (a b c : string) : a ++ b = a ++ c -> b = c.
Proof.
  induction a as [|x a IH]; simpl; intros E; [exact E|].
  inversion E. auto.
Qed.

Lemma ValidateArguments_OK_inv node :
  ValidateArguments node = Returns OK ->
  exists child0 l,
    children node = [child0; Literal l]
    /\ IsArrowStringLiteral (id (literal_return_type l)) = true.
Proof.
  destruct (view_node node) as [H|c0 c1 E H|c0 l E H|c0 l E H].
  - rewrite (ValidateArguments_arity _ H). discriminate.
  - rewrite (ValidateArguments_no_literal _ _ _ E H). discriminate.
  - rewrite (ValidateArguments_no_string _ _ _ E H). discriminate.
  - eauto.
Qed.

Lemma GetPattern_aborts_inv node f :
  GetPattern node = Aborts f ->
  f = bad_variant_access
  /\ exists child0 l,
       children node = [child0; Literal l]
       /\ IsArrowStringLiteral (id (literal_return_type l)) = true
       /\ forall p, holder l <> HoldsString p.
Proof.
  destruct (ValidateArguments_returns node) as [st V].
  destruct (ok st) eqn:Hok.
  - destruct st; [|discriminate].
    destruct (ValidateArguments_OK_inv _ V) as [c0 [l [E S]]].
    rewrite (GetPattern_valid _ _ _ E S).
    destruct (holder l) as [b|n|q] eqn:Hl; simpl; try discriminate;
      intros [= <-]; (split; [reflexivity|]); exists c0, l;
      repeat split; try assumption; intros p; congruence.
  - rewrite (GetPattern_invalid _ _ V Hok). discriminate.
Qed.

(** X1: [ValidateArguments] never raises; it answers [OK] exactly on two
    children of which the second is a string-like literal, and each of its
    three messages exactly on its own defect, the arity being checked
    before the literal and the literal before its type. *)
Theorem ValidateArguments_characterised node :
  (exists st, ValidateArguments node = Returns st)
  /\ (ValidateArguments node = Returns OK
      <-> exists child0 l,
            children node = [child0; Literal l]
            /\ IsArrowStringLiteral (id (literal_return_type l)) = true)
  /\ (ValidateArguments node
      = Returns (Invalid ("'" ++ descriptor_name node
                              ++ "' function requires two parameters"))
      <-> List.length (children node) <> 2)
  /\ (ValidateArguments node
      = Returns (Invalid ("'" ++ descriptor_name node
                              ++ "' function requires a literal as the second parameter"))
      <-> exists child0 child1,
            children node = [child0; child1]
            /\ dynamic_cast_LiteralNode child1 = None)
  /\ (ValidateArguments node
      = Returns (Invalid ("'" ++ descriptor_name node
                              ++ "' function requires a string literal as the second parameter"))
      <-> exists child0 l,
            children node = [child0; Literal l]
            /\ IsArrowStringLiteral (id (literal_return_type l)) = false).
Proof.
  split; [apply ValidateArguments_returns|].
  assert (D : forall a b : string,
             Returns (Invalid ("'" ++ descriptor_name node ++ a))
             = Returns (Invalid ("'" ++ descriptor_name node ++ b)) ->
             a = b).
  { intros a b E. inversion E as [E']. now apply append_inv_head in E'. }
  destruct (view_node node) as [H|c0 c1 E H|c0 l E H|c0 l E H].
  - rewrite (ValidateArguments_arity _ H).
    repeat split; try (intros _; assumption); try reflexivity.
    + discriminate.
    + intros [c0 [l [E _]]]. rewrite E in H. now destruct H.
    + intros X. apply D in X. discriminate.
    + intros [c0 [c1 [E _]]]. rewrite E in H. now destruct H.
    + intros X. apply D in X. discriminate.
    + intros [c0 [l [E _]]]. rewrite E in H. now destruct H.
  - rewrite (ValidateArguments_no_literal _ _ _ E H).
    repeat split; try reflexivity.
    + discriminate.
    + intros [c0' [l [E' _]]]. rewrite E in E'. inversion E'; subst.
      discriminate.
    + intros X. apply D in X. discriminate.
    + intros Hn. rewrite E in Hn. now destruct Hn.
    + intros _. eauto.
    + intros X. apply D in X. discriminate.
    + intros [c0' [l [E' _]]]. rewrite E in E'. inversion E'; subst.
      discriminate.
  - rewrite (ValidateArguments_no_string _ _ _ E H).
    repeat split; try reflexivity.
    + discriminate.
    + intros [c0' [l' [E' S]]]. rewrite E in E'. inversion E'; subst.
      congruence.
    + intros X. apply D in X. discriminate.
    + intros Hn. rewrite E in Hn. now destruct Hn.
    + intros X. apply D in X. discriminate.
    + intros [c0' [c1 [E' N]]]. rewrite E in E'. inversion E'; subst.
      discriminate.
    + intros _. eauto.
  - rewrite (ValidateArguments_valid _ _ _ E H).
    repeat split; try reflexivity; try discriminate.
    + intros _. eauto.
    + intros Hn. rewrite E in Hn. now destruct Hn.
    + intros [c0' [c1 [E' N]]]. rewrite E in E'. inversion E'; subst.
      discriminate.
    + intros [c0' [l' [E' S]]]. rewrite E in E'. inversion E'; subst.
      congruence.
Qed.

Lemma GetPattern_valid_string node child0 l p :
  children node = [child0; Literal l] ->
  IsArrowStringLiteral (id (literal_return_type l)) = true ->
  holder l = HoldsString p ->
  GetPattern node = Returns (ValueOf p).
Proof.
  intros E S Hp. now rewrite (GetPattern_valid _ _ _ E S), Hp.
Qed.

Lemma GetPattern_valid_other node child0 l :
  children node = [child0; Literal l] ->
  IsArrowStringLiteral (id (literal_return_type l)) = true ->
  (forall p, holder l <> HoldsString p) ->
  GetPattern node = Aborts bad_variant_access.
Proof.
  intros E S Hp. rewrite (GetPattern_valid _ _ _ E S).
  destruct (holder l) as [b|n|p]; [reflexivity|reflexivity|].
  now destruct (Hp p).
Qed.

(** X2: [GetPattern] hands on the status of a failed validation, returns the
    string of a validated literal that holds one, and raises, with
    [bad_variant_access] and nothing else, exactly on a validated literal
    that holds no string. *)
Theorem GetPattern_characterised node :
  (forall st,
     GetPattern node = Returns (Failed st)
     <-> ValidateArguments node = Returns st /\ ok st = false)
  /\ (forall p,
        GetPattern node = Returns (ValueOf p)
        <-> exists child0 l,
              children node = [child0; Literal l]
              /\ IsArrowStringLiteral (id (literal_return_type l)) = true
              /\ holder l = HoldsString p)
  /\ (forall f,
        GetPattern node = Aborts f
        <-> f = bad_variant_access
            /\ exists child0 l,
                 children node = [child0; Literal l]
                 /\ IsArrowStringLiteral (id (literal_return_type l)) = true
                 /\ forall p, holder l <> HoldsString p).
Proof.
  destruct (ValidateArguments_returns node) as [st0 V].
  destruct (ok st0) eqn:Hok.
  - destruct st0; [|discriminate].
    destruct (ValidateArguments_OK_inv _ V) as [c0 [l [E S]]].
    assert (U : forall c0' l', children node = [c0'; Literal l'] -> l' = l).
    { intros c0' l' E'. rewrite E in E'. now inversion E'. }
    assert (F : forall st,
               ValidateArguments node = Returns st /\ ok st = false -> False).
    { intros st [V' Hst]. rewrite V in V'. inversion V'; subst.
      discriminate. }
    assert (C : (exists q, holder l = HoldsString q)
                \/ (forall p, holder l <> HoldsString p)).
    { destruct (holder l) as [b|n|q]; [right|right|left; eauto];
        intros p; discriminate. }
    destruct C as [[q Hq]|Hn].
    + rewrite (GetPattern_valid_string _ _ _ _ E S Hq).
      split; [|split].
      * intros st. split; [discriminate|]. intros X. destruct (F _ X).
      * intros p. split.
        -- intros [= <-]. eauto.
        -- intros [c0' [l' [E' [_ Hp]]]]. rewrite (U _ _ E') in Hp.
           congruence.
      * intros f. split; [discriminate|].
        intros [_ [c0' [l' [E' [_ Hp]]]]]. rewrite (U _ _ E') in Hp.
        now destruct (Hp q).
    + rewrite (GetPattern_valid_other _ _ _ E S Hn).
      split; [|split].
      * intros st. split; [discriminate|]. intros X. destruct (F _ X).
      * intros p. split; [discriminate|].
        intros [c0' [l' [E' [_ Hp]]]]. rewrite (U _ _ E') in Hp.
        now destruct (Hn p).
      * intros f. split.
        -- intros [= <-]. split; [reflexivity|]. eauto.
        -- intros [-> _]. reflexivity.
  - rewrite (GetPattern_invalid _ _ V Hok).
    assert (N : forall c0 l,
               children node = [c0; Literal l] ->
               IsArrowStringLiteral (id (literal_return_type l)) = true ->
               False).
    { intros c0 l E S. rewrite (ValidateArguments_valid _ _ _ E S) in V.
      inversion V; subst. discriminate. }
    split; [|split].
    + intros st. split.
      * intros [= <-]. now split.
      * intros [V' _]. rewrite V in V'. now inversion V'.
    + intros p. split; [discriminate|].
      intros [c0 [l [E [S _]]]]. destruct (N _ _ E S).
    + intros f. split; [discriminate|].
      intros [_ [c0 [l [E [S _]]]]]. destruct (N _ _ E S).
Qed.

End Validation.

(* ================================================================= *)
(** ** What the three expressions accept, exactly *)

Section RecognizerLanguages.

(** X10: [starts_with_regex_] full-matches a text with [s] as group 1 exactly
    when the text is the anchor-start marker, the non-empty run [s] of word
    or whitespace characters, and optionally the wildcard marker. *)
Theorem starts_with_regex_language p s :
  (exists m, FullMatch p starts_with_regex_ = Some m /\ submatch m 1 = s)
  <-> prefix_shape p s.
Proof.
  split.
  - intros [m [F <-]]. now apply starts_with_sound.
  - apply starts_with_complete.
Qed.

(** X11: [ends_with_regex_] full-matches a text with [s] as group 2 exactly when
    the text is optionally the wildcard marker, the non-empty run [s] of
    word or whitespace characters, and the anchor-end marker. *)
Theorem ends_with_regex_language p s :
  (exists m, FullMatch p ends_with_regex_ = Some m /\ submatch m 2 = s)
  <-> suffix_shape p s.
Proof.
  split.
  - intros [m [F <-]]. now apply ends_with_sound.
  - apply ends_with_complete.
Qed.

(** X12: [is_substr_regex_] full-matches exactly the texts of word or
    whitespace characters, the empty text among them. *)
Theorem is_substr_regex_language p :
  (exists m, FullMatch p is_substr_regex_ = Some m)
  <-> all_word_or_space p = true.
Proof.
  split.
  - intros [m F]. eapply is_substr_sound; eauto.
  - apply is_substr_complete.
Qed.

(** X13: No text is full-matched by two of the three expressions, so the order
    in which [TryOptimize] tries them decides nothing. *)
Theorem recognizers_exclusive p :
  (FullMatch p starts_with_regex_ <> None ->
   FullMatch p ends_with_regex_ = None
   /\ FullMatch p is_substr_regex_ = None)
  /\ (FullMatch p ends_with_regex_ <> None ->
      FullMatch p is_substr_regex_ = None).
Proof.
  split.
  - intros H. destruct (FullMatch p starts_with_regex_) as [m|] eqn:F;
      [clear H|congruence].
    apply starts_with_sound in F. split.
    + apply ends_with_none. intros [s H].
      exact (suffix_not_prefix _ _ _ H F).
    + apply is_substr_none. intros H.
      exact (substr_not_prefix _ _ H F).
  - intros H. destruct (FullMatch p ends_with_regex_) as [m|] eqn:F;
      [clear H|congruence].
    apply ends_with_sound in F.
    apply is_substr_none. intros H. exact (substr_not_suffix _ _ H F).
Qed.

End RecognizerLanguages.

(* ================================================================= *)
(** ** Construction and rewriting, from result back to input *)

Section Converse.

Variable re2_ok : string -> bool.

Local Abbreviation Make_pattern := (Make_pattern re2_ok).
Local Abbreviation Make_node := (Make_node re2_ok).
Local Abbreviation new_holder := (new_RegexpMatchesHolder re2_ok).
Local Abbreviation TryOptimize := (TryOptimize re2_ok).

Lemma string_length_append (a b : string) :
  String.length (a ++ b) = String.length a + String.length b.
Proof. induction a as [|x a IH]; simpl; [reflexivity|now rewrite IH]. Qed.

Lemma Make_node_aborts_inv node h0 f :
  Make_node node h0 = Aborts f -> GetPattern node = Aborts f.
Proof.
  unfold Make_node. destruct (GetPattern node) as [[p|st]|f']; simpl;
    [discriminate|discriminate|now intros [= ->]].
Qed.

(** X3: The node-based [Make] returns [OK] exactly on two children of which
    the second is a string-like literal holding a text the engine accepts,
    and [*holder] is then a fresh holder of that text, never null. *)
Theorem Make_node_OK_exactly node h0 h :
  Make_node node h0 = Returns (OK, h)
  <-> exists child0 l p,
        children node = [child0; Literal l]
        /\ IsArrowStringLiteral (id (literal_return_type l)) = true
        /\ holder l = HoldsString p
        /\ re2_ok p = true
        /\ h = Some (new_holder p).
Proof.
  split.
  - intros M.
    destruct (Make_node_OK_inv re2_ok _ _ _ _ M eq_refl)
      as [c0 [l [p [E [S [Hp [R [_ ->]]]]]]]].
    exists c0, l, p. auto.
  - intros [c0 [l [p [E [S [Hp [R ->]]]]]]].
    rewrite (Make_node_valid re2_ok _ _ _ _ h0 E S Hp).
    now rewrite (Make_pattern_accepted re2_ok _ _ R).
Qed.

(** X4: A failing node-based [Make] leaves [*holder] as it was; its status is
    a validation message, or the message of the rejected text of the
    literal. *)
Theorem Make_node_failure_keeps_holder node h0 st h :
  Make_node node h0 = Returns (st, h) -> ok st = false ->
  h = h0
  /\ (InvalidShape node st
      \/ exists child0 l p,
           children node = [child0; Literal l]
           /\ holder l = HoldsString p
           /\ re2_ok p = false
           /\ InvalidPattern p st).
Proof.
  intros M Hok.
  destruct (view_node node) as [H|c0 c1 E H|c0 l E H|c0 l E H].
  1-3: destruct (Make_node_invalid_shape re2_ok node h0) as [st' [M' I]];
    [eauto 8|rewrite M' in M; inversion M; subst; auto].
  destruct (holder l) as [b|n|p] eqn:Hl.
  1,2: rewrite (Make_node_ill_typed re2_ok _ _ _ h0 E H) in M;
    [discriminate|intros p; congruence].
  rewrite (Make_node_valid re2_ok _ _ _ _ h0 E H Hl) in M.
  destruct (re2_ok p) eqn:R.
  - rewrite (Make_pattern_accepted re2_ok _ _ R) in M. inversion M; subst.
    discriminate.
  - rewrite (Make_pattern_rejected re2_ok _ _ R) in M. inversion M; subst.
    split; [reflexivity|]. right. exists c0, l, p.
    repeat split; assumption.
Qed.

(** X5: [TryOptimize] raises exactly on a validated call whose literal holds
    no string, and then with [bad_variant_access]: neither [at(0)] nor
    [at(1)] nor the holder pointer ever fails. *)
Theorem TryOptimize_raises_exactly node f :
  TryOptimize node = Aborts f
  <-> f = bad_variant_access
      /\ exists child0 l,
           children node = [child0; Literal l]
           /\ IsArrowStringLiteral (id (literal_return_type l)) = true
           /\ forall p, holder l <> HoldsString p.
Proof.
  split.
  - intros T. destruct (Make_node node None) as [[st h]|f0] eqn:M.
    + exfalso. destruct (ok st) eqn:Hok.
      * destruct (Make_node_OK_inv re2_ok _ _ _ _ M Hok)
          as [c0 [l [p [E [_ [_ [_ [-> ->]]]]]]]].
        rewrite (TryOptimize_made re2_ok _ _ _ _ E M) in T. discriminate.
      * rewrite (TryOptimize_not_made re2_ok _ _ _ M Hok) in T. discriminate.
    + rewrite (TryOptimize_aborts re2_ok _ _ M) in T. inversion T; subst.
      apply Make_node_aborts_inv in M.
      now apply GetPattern_aborts_inv in M.
  - intros [-> [c0 [l [E [S Hn]]]]].
    apply TryOptimize_aborts.
    exact (Make_node_ill_typed re2_ok _ _ _ None E S Hn).
Qed.

(** X6: Whatever [TryOptimize] returns has the result type, the number of
    children and the first child of its input, and fares with
    [ValidateArguments] as its input does. *)
Theorem TryOptimize_preserves_interface node node' :
  TryOptimize node = Returns node' ->
  return_type node' = return_type node
  /\ List.length (children node') = List.length (children node)
  /\ nth_error (children node') 0 = nth_error (children node) 0
  /\ ValidateArguments node' = ValidateArguments node.
Proof.
  intros T.
  destruct (TryOptimize_inv re2_ok _ _ T)
    as [->|[c0 [l [p [op [lit [E [S [Hp [R [Rec ->]]]]]]]]]]]; [auto|].
  unfold replacement. simpl. rewrite E. simpl.
  repeat split.
  rewrite (ValidateArguments_valid node c0 l E S).
  now apply (ValidateArguments_valid _ c0
               (mkLiteralNode (literal_return_type l) (HoldsString lit) false)).
Qed.

(** X7: [TryOptimize] changes a node only when the holder was built from a
    text [p] of one of the three shapes: the new node names the operation
    of that shape and carries its literal, the capture for [starts_with]
    and [ends_with] and [p] itself for [is_substr]. *)
Theorem TryOptimize_rewrites_only_shapes node node' :
  TryOptimize node = Returns node' -> node' <> node ->
  exists child0 l p lit,
    children node = [child0; Literal l]
    /\ holder l = HoldsString p
    /\ re2_ok p = true
    /\ node' = mkFunctionNode (descriptor_name node')
                 [child0;
                  Literal (mkLiteralNode (literal_return_type l)
                                         (HoldsString lit) false)]
                 (return_type node)
    /\ ((descriptor_name node' = "starts_with" /\ prefix_shape p lit)
        \/ (descriptor_name node' = "ends_with" /\ suffix_shape p lit)
        \/ (descriptor_name node' = "is_substr" /\ substr_shape p
            /\ lit = p)).
Proof.
  intros T Hne.
  destruct (TryOptimize_inv re2_ok _ _ T)
    as [->|[c0 [l [p [op [lit [E [S [Hp [R [Rec ->]]]]]]]]]]];
    [now destruct Hne|].
  exists c0, l, p, lit. unfold replacement. simpl.
  repeat split; try assumption.
  exact (recognize_inv _ _ _ Rec).
Qed.

(** X8: The literal of a rewritten node is a non-null literal of a string-like
    type that holds word or whitespace characters only, no longer than the
    text of the original literal. *)
Theorem TryOptimize_literal_plain node node' :
  TryOptimize node = Returns node' -> node' <> node ->
  exists l l' p lit,
    nth_error (children node) 1 = Some (Literal l)
    /\ holder l = HoldsString p
    /\ nth_error (children node') 1 = Some (Literal l')
    /\ holder l' = HoldsString lit
    /\ is_null l' = false
    /\ IsArrowStringLiteral (id (literal_return_type l')) = true
    /\ all_word_or_space lit = true
    /\ String.length lit <= String.length p.
Proof.
  intros T Hne.
  destruct (TryOptimize_inv re2_ok _ _ T)
    as [->|[c0 [l [p [op [lit [E [S [Hp [R [Rec ->]]]]]]]]]]];
    [now destruct Hne|].
  exists l. eexists. exists p, lit. unfold replacement. rewrite E. simpl.
  repeat split; try assumption.
  - exact (recognized_literal_plain _ _ _ Rec).
  - destruct (recognize_inv _ _ _ Rec)
      as [[_ [t [-> _]]]|[[_ [t [-> _]]]|[_ [_ ->]]]].
    + simpl. rewrite string_length_append. lia.
    + rewrite !string_length_append. lia.
    + lia.
Qed.

(** X9: [TryOptimize] does not consult the null flag of the literal: when it
    rewrites, a null and a non-null literal of the same text give the same
    node. *)
Theorem TryOptimize_ignores_null_flag name child0 type p nul nul' ret :
  IsArrowStringLiteral (id type) = true ->
  re2_ok p = true ->
  (exists s, prefix_shape p s) \/ (exists s, suffix_shape p s)
  \/ substr_shape p ->
  TryOptimize (mkFunctionNode name
                 [child0; Literal (mkLiteralNode type (HoldsString p) nul)]
                 ret)
  = TryOptimize (mkFunctionNode name
                   [child0; Literal (mkLiteralNode type (HoldsString p) nul')]
                   ret).
Proof.
  intros S R Hshape.
  assert (Rec : exists op lit, recognize p = Some (op, lit)).
  { destruct Hshape as [[s H]|[[s H]|H]].
    - rewrite (recognize_prefix _ _ H). eauto.
    - rewrite (recognize_suffix _ _ H). eauto.
    - rewrite (recognize_substr _ H). eauto. }
  destruct Rec as [op [lit Rec]].
  rewrite (TryOptimize_valid re2_ok
             (mkFunctionNode name
                [child0; Literal (mkLiteralNode type (HoldsString p) nul)] ret)
             child0 (mkLiteralNode type (HoldsString p) nul) p
             eq_refl S eq_refl).
  rewrite (TryOptimize_valid re2_ok
             (mkFunctionNode name
                [child0; Literal (mkLiteralNode type (HoldsString p) nul')] ret)
             child0 (mkLiteralNode type (HoldsString p) nul') p
             eq_refl S eq_refl).
  now rewrite R, Rec.
Qed.

End Converse.

(* ================================================================= *)
(** ** The LIKE-flavoured constructor, case by case *)

Section SQLLikeCases.

Variable re2_ok : string -> bool.
Variable SqlLikePatternToPcre : string -> Status * string.

Local Abbreviation Make_pattern := (Make_pattern re2_ok).
Local Abbreviation Make_node := (Make_node re2_ok).
Local Abbreviation new_holder := (new_RegexpMatchesHolder re2_ok).
Local Abbreviation SQLLike_Make_pattern :=
  (SQLLike_Make_pattern re2_ok SqlLikePatternToPcre).
Local Abbreviation SQLLike_Make_node :=
  (SQLLike_Make_node re2_ok SqlLikePatternToPcre).

(** X14: The string-based [SQLLikeHolder::Make] hands a failure of the
    translator on as it is and leaves [*holder] alone; when the translator
    succeeds and the engine accepts what it produced, the holder stores the
    translated text, not the LIKE text. *)
Theorem SQLLike_Make_pattern_cases sql_pattern h0 :
  (ok (fst (SqlLikePatternToPcre sql_pattern)) = false ->
   SQLLike_Make_pattern sql_pattern h0
   = (fst (SqlLikePatternToPcre sql_pattern), h0))
  /\ (forall pcre_pattern,
        SqlLikePatternToPcre sql_pattern = (OK, pcre_pattern) ->
        re2_ok pcre_pattern = true ->
        SQLLike_Make_pattern sql_pattern h0
        = (OK, Some (new_holder pcre_pattern))).
Proof.
  split.
  - intros H. unfold SQLLike_Make_pattern. now rewrite H.
  - intros pcre Tr R. unfold SQLLike_Make_pattern. rewrite Tr. simpl.
    now rewrite (Make_pattern_accepted re2_ok _ None R).
Qed.

(** X15: The two node-based constructors treat the node alike: on a failed
    validation both return the validation status and leave [*holder]
    alone, one raises exactly when the other does, and on a validated
    string literal the LIKE-flavoured one goes on with the text of the
    literal. *)
Theorem SQLLike_Make_node_cases node h0 :
  (forall st,
     ValidateArguments node = Returns st -> ok st = false ->
     SQLLike_Make_node node h0 = Returns (st, h0)
     /\ Make_node node h0 = Returns (st, h0))
  /\ (forall f,
        SQLLike_Make_node node h0 = Aborts f
        <-> Make_node node h0 = Aborts f)
  /\ (forall child0 l p,
        children node = [child0; Literal l] ->
        IsArrowStringLiteral (id (literal_return_type l)) = true ->
        holder l = HoldsString p ->
        SQLLike_Make_node node h0 = Returns (SQLLike_Make_pattern p h0)).
Proof.
  split; [|split].
  - intros st V Hok. split.
    + unfold SQLLike_Make_node. now rewrite (GetPattern_invalid _ _ V Hok).
    + exact (Make_node_invalid re2_ok _ _ h0 V Hok).
  - intros f. unfold SQLLike_Make_node, Make_node.
    destruct (GetPattern node) as [[p|st]|f']; simpl;
      split; intros X; try discriminate; exact X || (now inversion X).
  - intros c0 l p E S Hp. unfold SQLLike_Make_node.
    now rewrite (GetPattern_valid_string _ _ _ _ E S Hp).
Qed.

(** X16: Every constructor keeps [*holder] well formed: if it was null or a
    holder whose matcher was compiled from its pattern text, so it is
    afterwards, whatever the status. *)
Theorem Make_keeps_holder_well_formed h0 :
  holder_slot_ok h0 ->
  (forall p, holder_slot_ok (snd (Make_pattern p h0)))
  /\ (forall node made,
        Make_node node h0 = Returns made -> holder_slot_ok (snd made))
  /\ (forall sql, holder_slot_ok (snd (SQLLike_Make_pattern sql h0)))
  /\ (forall node made,
        SQLLike_Make_node node h0 = Returns made ->
        holder_slot_ok (snd made)).
Proof.
  intros W.
  assert (P : forall p h, holder_slot_ok h ->
                          holder_slot_ok (snd (Make_pattern p h))).
  { intros p h Wh. destruct (re2_ok p) eqn:R.
    - rewrite (Make_pattern_accepted re2_ok _ _ R). simpl.
      split; [reflexivity|exact R].
    - now rewrite (Make_pattern_rejected re2_ok _ _ R). }
  assert (Q : forall sql, holder_slot_ok (snd (SQLLike_Make_pattern sql h0))).
  { intros sql. unfold SQLLike_Make_pattern.
    destruct (ok (fst (SqlLikePatternToPcre sql))); simpl; [|exact W].
    now apply P. }
  split; [intros p; now apply P|]. split; [|split; [exact Q|]].
  - intros node made. unfold Make_node.
    destruct (GetPattern node) as [[p|st]|f]; simpl; [| |discriminate];
      intros [= <-]; [now apply P|exact W].
  - intros node made. unfold SQLLike_Make_node.
    destruct (GetPattern node) as [[p|st]|f]; simpl; [| |discriminate];
      intros [= <-]; [apply Q|exact W].
Qed.

End SQLLikeCases.

(* ================================================================= *)
(** ** The further properties on examples *)

Section MoreExamples.

Local Abbreviation TryOptimize := (TryOptimize sample_re2_ok).
Local Abbreviation Make_node := (Make_node sample_re2_ok).
Local Abbreviation new_holder := (new_RegexpMatchesHolder sample_re2_ok).

Lemma Make_node_failure_keeps_holder_witness :
  Make_node (call_on_x "like" "(") None
  = Returns (Invalid "Building RE2 pattern '(' failed", None)
  /\ (None : option RegexpMatchesHolder) = None.
Proof.
  split; [reflexivity|].
  apply (Make_node_failure_keeps_holder sample_re2_ok
           (call_on_x "like" "(") None
           (Invalid "Building RE2 pattern '(' failed") None);
    reflexivity.
Defined.

Lemma TryOptimize_preserves_interface_witness :
  TryOptimize (call_on_x "like" "^hello")
  = Returns (call_on_x "starts_with" "hello")
  /\ ValidateArguments (call_on_x "starts_with" "hello")
     = ValidateArguments (call_on_x "like" "^hello").
Proof.
  split; [reflexivity|].
  apply (TryOptimize_preserves_interface sample_re2_ok
           (call_on_x "like" "^hello") (call_on_x "starts_with" "hello")).
  reflexivity.
Defined.

Lemma TryOptimize_rewrites_only_shapes_witness :
  TryOptimize (call_on_x "like" "^hello")
  = Returns (call_on_x "starts_with" "hello")
  /\ call_on_x "starts_with" "hello" <> call_on_x "like" "^hello"
  /\ exists child0 l p lit,
       children (call_on_x "like" "^hello") = [child0; Literal l]
       /\ holder l = HoldsString p
       /\ sample_re2_ok p = true
       /\ call_on_x "starts_with" "hello"
          = mkFunctionNode (descriptor_name (call_on_x "starts_with" "hello"))
              [child0;
               Literal (mkLiteralNode (literal_return_type l)
                                      (HoldsString lit) false)]
              (return_type (call_on_x "like" "^hello"))
       /\ ((descriptor_name (call_on_x "starts_with" "hello") = "starts_with"
            /\ prefix_shape p lit)
           \/ (descriptor_name (call_on_x "starts_with" "hello") = "ends_with"
               /\ suffix_shape p lit)
           \/ (descriptor_name (call_on_x "starts_with" "hello") = "is_substr"
               /\ substr_shape p /\ lit = p)).
Proof.
  split; [reflexivity|]. split; [discriminate|].
  apply (TryOptimize_rewrites_only_shapes sample_re2_ok
           (call_on_x "like" "^hello") (call_on_x "starts_with" "hello"));
    [reflexivity|discriminate].
Defined.

Lemma TryOptimize_literal_plain_witness :
  TryOptimize (call_on_x "like" ".*world$")
  = Returns (call_on_x "ends_with" "world")
  /\ call_on_x "ends_with" "world" <> call_on_x "like" ".*world$"
  /\ exists l l' p lit,
       nth_error (children (call_on_x "like" ".*world$")) 1
       = Some (Literal l)
       /\ holder l = HoldsString p
       /\ nth_error (children (call_on_x "ends_with" "world")) 1
          = Some (Literal l')
       /\ holder l' = HoldsString lit
       /\ is_null l' = false
       /\ IsArrowStringLiteral (id (literal_return_type l')) = true
       /\ all_word_or_space lit = true
       /\ String.length lit <= String.length p.
Proof.
  split; [reflexivity|]. split; [discriminate|].
  apply (TryOptimize_literal_plain sample_re2_ok
           (call_on_x "like" ".*world$") (call_on_x "ends_with" "world"));
    [reflexivity|discriminate].
Defined.

Lemma TryOptimize_ignores_null_flag_witness :
  sample_re2_ok "hello world" = true
  /\ substr_shape "hello world"
  /\ TryOptimize
       (mkFunctionNode "like"
          [Field "x" utf8;
           Literal (mkLiteralNode utf8 (HoldsString "hello world") true)]
          boolean)
     = TryOptimize (call_on_x "like" "hello world").
Proof.
  split; [reflexivity|]. split; [reflexivity|].
  apply (TryOptimize_ignores_null_flag sample_re2_ok "like" (Field "x" utf8)
           utf8 "hello world" true false boolean);
    [reflexivity|reflexivity|right; right; reflexivity].
Defined.

Lemma SQLLike_Make_pattern_cases_witness :
  sample_SqlLikePatternToPcre "hello" = (OK, "hello")
  /\ sample_re2_ok "hello" = true
  /\ SQLLike_Make_pattern sample_re2_ok sample_SqlLikePatternToPcre
       "hello" None
     = (OK, Some (new_holder "hello")).
Proof.
  split; [reflexivity|]. split; [reflexivity|].
  apply (proj2 (SQLLike_Make_pattern_cases sample_re2_ok
                  sample_SqlLikePatternToPcre "hello" None));
    reflexivity.
Defined.

Lemma SQLLike_Make_node_cases_witness :
  ValidateArguments (mkFunctionNode "like" [Field "x" utf8] boolean)
  = Returns (Invalid "'like' function requires two parameters")
  /\ SQLLike_Make_node sample_re2_ok sample_SqlLikePatternToPcre
       (mkFunctionNode "like" [Field "x" utf8] boolean) None
     = Returns (Invalid "'like' function requires two parameters", None)
  /\ Make_node (mkFunctionNode "like" [Field "x" utf8] boolean) None
     = Returns (Invalid "'like' function requires two parameters", None).
Proof.
  split; [reflexivity|].
  apply (proj1 (SQLLike_Make_node_cases sample_re2_ok
                  sample_SqlLikePatternToPcre
                  (mkFunctionNode "like" [Field "x" utf8] boolean) None));
    reflexivity.
Defined.

Lemma Make_keeps_holder_well_formed_witness :
  holder_slot_ok None
  /\ holder_slot_ok
       (snd (SQLLike_Make_pattern sample_re2_ok sample_SqlLikePatternToPcre
               "hello" None)).
Proof.
  split; [exact I|].
  apply (Make_keeps_holder_well_formed sample_re2_ok
           sample_SqlLikePatternToPcre None I).
Defined.

End MoreExamples.
